(** * catastro.py: a shallow embedding and its verified properties

    The script queries the Catastro OVC web service for every house number of
    a street, fetches the plot surface of every hit from the Sede Electronica
    viewer page and writes a CSV file.

    Modelling conventions.
    - Python [str] is [string]; every [ascii] is read as the code point of the
      same number, so the texts covered are those over U+0000..U+00FF.  On that
      range [\d] is [0-9], [\s] is the white space listed in [is_space], and
      IGNORECASE only identifies the two cases of an ASCII letter.
    - Python [int] is [Z].
    - [urlopen], [ET.fromstring], [str.upper] and [str.lower] belong to the
      Python runtime; they are the fields of the class [Runtime].  A request
      either yields the decoded body or raises one of the two exceptions that
      [fetch_url] catches.
    - Effects ([urlopen], [time.sleep], opening the output file, [writerow])
      are recorded, in program order, as a list of [event]s.  Console output
      is not modelled. *)

From Stdlib Require Import ZArith List String Ascii Bool Lia.
From Stdlib Require Import DecimalString Permutation Sorted OrderedTypeEx.
Import ListNotations.
Local Open Scope string_scope.
Local Open Scope Z_scope.

(** ** Text primitives *)

Definition code (c : ascii) : N := N_of_ascii c.

Definition between (lo hi : N) (c : ascii) : bool :=
  (N.leb lo (code c) && N.leb (code c) hi)%bool.

(** [\d] on U+0000..U+00FF. *)
Definition is_digit (c : ascii) : bool := between 48 57 c.

(** [\s] on U+0000..U+00FF: TAB..CR, FS..US, SPACE, NEL and NBSP. *)
Definition is_space (c : ascii) : bool :=
  (between 9 13 c || between 28 32 c
   || N.eqb (code c) 133 || N.eqb (code c) 160)%bool.

Definition is_upper (c : ascii) : bool := between 65 90 c.

(** Case folding of an ASCII letter; other characters are left alone. *)
Definition fold_case (c : ascii) : ascii :=
  if is_upper c then ascii_of_N (code c + 32) else c.

Fixpoint all_chars (p : ascii -> bool) (s : string) : bool :=
  match s with
  | EmptyString => true
  | String c s' => (p c && all_chars p s')%bool
  end.

(** [s + c] for a single character [c]. *)
Fixpoint snoc (s : string) (c : ascii) : string :=
  match s with
  | EmptyString => String c EmptyString
  | String x s' => String x (snoc s' c)
  end.

(** [s.replace(old, "")] for a single character [old]. *)
Fixpoint remove_char (old : ascii) (s : string) : string :=
  match s with
  | EmptyString => EmptyString
  | String c s' =>
      if Ascii.eqb c old then remove_char old s'
      else String c (remove_char old s')
  end.

(** [s.replace(old, new)] for single characters. *)
Fixpoint replace_char (old new : ascii) (s : string) : string :=
  match s with
  | EmptyString => EmptyString
  | String c s' =>
      String (if Ascii.eqb c old then new else c) (replace_char old new s')
  end.

(** Python truthiness of a value that is [None] or a [str]. *)
Definition truthy (o : option string) : bool :=
  match o with
  | None => false
  | Some EmptyString => false
  | Some _ => true
  end.

(** [str(n)] for an [int]. *)
Definition str_of_int (n : Z) : string := NilZero.string_of_int (Z.to_int n).

(** Value of a string of decimal digits, most significant first. *)
Fixpoint digits_value (acc : Z) (s : string) : Z :=
  match s with
  | EmptyString => acc
  | String c s' => digits_value (10 * acc + Z.of_N (code c - 48)) s'
  end.

(** [int(s)] on the strings that reach it in this program, which hold nothing
    but decimal digits: [None] stands for [ValueError], raised on the empty
    string. *)
Definition int (s : string) : option Z :=
  match s with
  | EmptyString => None
  | _ => if all_chars is_digit s then Some (digits_value 0 s) else None
  end.

(** ** urllib.parse.quote *)

Definition hex_digit (n : N) : ascii :=
  if N.ltb n 10 then ascii_of_N (48 + n) else ascii_of_N (55 + n).

Definition percent (byte : N) : string :=
  String "%" (String (hex_digit (N.div byte 16))
                     (String (hex_digit (N.modulo byte 16)) EmptyString)).

(** Characters that [quote] never escapes, with its default [safe='/']. *)
Definition is_unreserved (c : ascii) : bool :=
  (between 65 90 c || between 97 122 c || is_digit c
   || Ascii.eqb c "_" || Ascii.eqb c "." || Ascii.eqb c "-"
   || Ascii.eqb c "~" || Ascii.eqb c "/")%bool.

(** The UTF-8 bytes of a code point below U+0100, each percent-escaped. *)
Definition quote_char (c : ascii) : string :=
  if is_unreserved c then String c EmptyString
  else if N.ltb (code c) 128 then percent (code c)
  else percent (192 + N.div (code c) 64) ++ percent (128 + N.modulo (code c) 64).

Fixpoint quote (s : string) : string :=
  match s with
  | EmptyString => EmptyString
  | String c s' => quote_char c ++ quote s'
  end.

(** ** Regular expressions

    Every pattern of the script is a sequence of single-character items, each
    with a quantifier, at most one of them inside the capturing group.  The
    matcher is the backtracking one of [re]: a greedy quantifier tries the
    longest run first, a lazy one the shortest, and the first way that lets
    the rest of the pattern match is the answer. *)

Inductive quantifier := One | Plus | Star | LazyStar.

Record item := Item {
  item_class : ascii -> bool;
  item_quant : quantifier;
  item_group : bool
}.

Definition regex := list item.

Section Matcher.
Context {R : Type}.
Variable cls : ascii -> bool.
(** [k taken rest]: match what follows, [taken] being what this item ate. *)
Variable k : string -> string -> option R.

Fixpoint greedy (taken s : string) : option R :=
  match s with
  | String c s' =>
      if cls c then
        match greedy (snoc taken c) s' with
        | Some r => Some r
        | None => k taken s
        end
      else k taken s
  | EmptyString => k taken s
  end.

Fixpoint lazy (taken s : string) : option R :=
  match k taken s with
  | Some r => Some r
  | None =>
      match s with
      | String c s' => if cls c then lazy (snoc taken c) s' else None
      | EmptyString => None
      end
  end.
End Matcher.

(** [match_here re g s]: match [re] at the start of [s]; the result is the
    text of the group ([g] if the group is not in [re]) and what is left of
    [s] after the match. *)
Fixpoint match_here (re : regex) (g : string) (s : string)
  : option (string * string) :=
  match re with
  | [] => Some (g, s)
  | it :: re' =>
      let k := fun taken rest =>
        match_here re' (if item_group it then taken else g) rest in
      match item_quant it with
      | One =>
          match s with
          | String c s' =>
              if item_class it c then k (String c EmptyString) s' else None
          | EmptyString => None
          end
      | Plus =>
          match s with
          | String c s' =>
              if item_class it c
              then greedy (item_class it) k (String c EmptyString) s'
              else None
          | EmptyString => None
          end
      | Star => greedy (item_class it) k EmptyString s
      | LazyStar => lazy (item_class it) k EmptyString s
      end
  end.

(** [re.search(re, s)]: the leftmost match; [m.group(1)] is the first
    component, the text after the match the second. *)
Fixpoint search_from (re : regex) (s : string) : option (string * string) :=
  match match_here re EmptyString s with
  | Some r => Some r
  | None =>
      match s with
      | EmptyString => None
      | String _ s' => search_from re s'
      end
  end.

Definition re_search (re : regex) (s : string) : option string :=
  option_map fst (search_from re s).

(** [re.findall(re, s)] for a pattern with one group that cannot match the
    empty string: the groups of the successive non-overlapping matches.
    [skip] counts the characters of [s] still inside the previous match. *)
Fixpoint findall_from (re : regex) (skip : nat) (s : string) : list string :=
  match s with
  | EmptyString => []
  | String _ s' =>
      match skip with
      | S n => findall_from re n s'
      | O =>
          match match_here re EmptyString s with
          | Some (g, rest) =>
              g :: findall_from re (String.length s' - String.length rest) s'
          | None => findall_from re O s'
          end
      end
  end.

Definition re_findall (re : regex) (s : string) : list string :=
  findall_from re O s.

(** *** Pattern syntax *)

Definition lit (c : ascii) : item := Item (Ascii.eqb c) One false.
Definition ilit (c : ascii) : item :=
  Item (fun x => Ascii.eqb (fold_case x) (fold_case c)) One false.
Definition any_char : ascii -> bool := fun _ => true.
Definition not_char (c : ascii) : ascii -> bool :=
  fun x => negb (Ascii.eqb x c).
Definition digit_or_dot : ascii -> bool :=
  fun x => (is_digit x || Ascii.eqb x ".")%bool.

Fixpoint lits (s : string) : regex :=
  match s with
  | EmptyString => []
  | String c s' => lit c :: lits s'
  end.

Fixpoint ilits (s : string) : regex :=
  match s with
  | EmptyString => []
  | String c s' => ilit c :: ilits s'
  end.

(** [<tag>(cls+)</tag>] *)
Definition element (tag : string) (cls : ascii -> bool) : regex :=
  (lits ("<" ++ tag ++ ">") ++ [Item cls Plus true]
   ++ lits ("</" ++ tag ++ ">"))%list.

(** [<cuerr>[^0]] *)
Definition re_cuerr : regex :=
  (lits "<cuerr>" ++ [Item (not_char "0") One false])%list.

(** [Superficie\s+gr.fica.*?>([\d.]+)\s*m] with DOTALL and IGNORECASE. *)
Definition re_superficie : regex :=
  (ilits "Superficie" ++ [Item is_space Plus false]
   ++ ilits "gr" ++ [Item any_char One false] ++ ilits "fica"
   ++ [Item any_char LazyStar false] ++ [lit ">"]
   ++ [Item digit_or_dot Plus true] ++ [Item is_space Star false]
   ++ [ilit "m"])%list.

(** ** The runtime, effects and the program monad *)

(** What [urlopen(req, timeout=15)] followed by [resp.read().decode(...)]
    gives: the body, or [URLError] / [TimeoutError]. *)
Inductive response := Body (text : string) | Failure.

Class Runtime := {
  World : Type;
  urlopen : string -> World -> response * World;
  (** [ET.fromstring] accepts the text (raises no [ParseError]). *)
  fromstring_ok : string -> bool;
  upper : string -> string;
  lower : string -> string
}.

(** A value handed to [csv.writer.writerow]. *)
Inductive cell := CInt (n : Z) | CStr (s : string).

Inductive event :=
| EvRequest (url : string) (attempt : nat)   (* urlopen, inside fetch_url *)
| EvSleep (ms : Z)                           (* time.sleep *)
| EvOpen (path : string)                     (* open(path, "w") *)
| EvRow (cells : list cell).                 (* writer.writerow *)

(** ** Data *)

(** The dictionary built by [get_property_from_api]. *)
Record api_property := {
  number : Z;
  street : string;
  referencia_catastral : string;
  parcel_ref : string;
  built_surface_m2 : Z;
  year : string;
  use : string
}.

Module Args.
(** The namespace returned by [parser.parse_args()]. *)
Record t := {
  province : string;
  municipality : string;
  street : string;
  max_number : Z;
  consecutive_misses : Z;
  output : option string;
  no_plot_surface : bool
}.
End Args.

(** The namespace of a command line that gives the three positional
    arguments and no option. *)
Definition default_arguments (province municipality street : string) : Args.t :=
  {| Args.province := province;
     Args.municipality := municipality;
     Args.street := street;
     Args.max_number := 500;
     Args.consecutive_misses := 40;
     Args.output := None;
     Args.no_plot_surface := false |}.

(** A collected property: the API dictionary with the key
    ["plot_surface_m2"] added, an [int] or the empty string. *)
Record property := {
  api : api_property;
  plot_surface_m2 : cell
}.

(** The variables of the scan of one street. *)
Record scan_state := {
  consecutive_misses : Z;
  found_in_street : Z;
  properties : list property
}.

Section Program.
Context {RT : Runtime}.

Definition M (A : Type) : Type := World -> A * list event * World.

Definition ret {A} (a : A) : M A := fun w => (a, [], w).

Definition bind {A B} (m : M A) (f : A -> M B) : M B :=
  fun w =>
    let '(a, t1, w1) := m w in
    let '(b, t2, w2) := f a w1 in
    (b, (t1 ++ t2)%list, w2).

Notation "x <- m ;; f" := (bind m (fun x => f))
  (at level 61, m at next level, right associativity).
Notation "m ;;; f" := (bind m (fun _ => f))
  (at level 61, right associativity).

Definition emit (e : event) : M unit := fun w => (tt, [e], w).

Definition request (url : string) (attempt : nat) : M response :=
  fun w => let '(r, w') := urlopen url w in (r, [EvRequest url attempt], w').

Definition sleep (ms : Z) : M unit := emit (EvSleep ms).

Definition value {A} (r : A * list event * World) : A := fst (fst r).
Definition trace {A} (r : A * list event * World) : list event := snd (fst r).
Definition world_after {A} (r : A * list event * World) : World := snd r.

(** [range(start, stop)] *)
Definition range (start stop : Z) : list Z :=
  map (fun i => start + Z.of_nat i) (seq 0 (Z.to_nat (stop - start))).

(** ** The script *)

Definition BASE_API : string :=
  "https://ovc.catastro.meh.es/ovcservweb/OVCSWLocalizacionRC/OVCCallejero.asmx".
Definition SEDE_URL : string :=
  "https://www1.sedecatastro.gob.es/CYCBienInmueble/OVCConCiud.aspx".

(** *** fetch_url (lines 30-42)

    The loop over [range(retries)]. *)
Fixpoint fetch_loop (url : string) (retries : nat) (attempts : list nat)
  : M (option string) :=
  match attempts with
  | [] => ret None
  | attempt :: rest =>
      r <- request url attempt ;;
      match r with
      | Body text => ret (Some text)
      | Failure =>
          if (attempt <? retries - 1)%nat
          then sleep 2000 ;;; fetch_loop url retries rest
          else ret None
      end
  end.

Definition fetch_url (url : string) (retries : nat) : M (option string) :=
  fetch_loop url retries (seq 0 retries).

(** The default of [fetch_url]'s parameter, used by every call. *)
Definition default_retries : nat := 3.

(** *** lookup_municipality_codes (lines 45-74) *)

Definition municipio_url (province municipality : string) : string :=
  BASE_API ++ "/ConsultaMunicipio?"
  ++ "Provincia=" ++ quote province ++ "&Municipio=" ++ quote municipality.

Definition lookup_municipality_codes (province municipality : string)
  : M (option string * option string) :=
  let url := municipio_url province municipality in
  xml_text <- fetch_url url default_retries ;;
  match xml_text with
  | Some (String _ _ as xml_text) =>
      let del_match :=
        match re_search (element "cd" is_digit) xml_text with
        | Some m => Some m
        | None => re_search (element "cp" is_digit) xml_text
        end in
      let mun_match :=
        match re_search (element "cmc" is_digit) xml_text with
        | Some m => Some m
        | None => re_search (element "cm" is_digit) xml_text
        end in
      ret (del_match, mun_match)
  | _ => ret (None, None)
  end.

(** *** discover_streets (lines 77-99) *)

Definition via_url (province municipality street_query : string) : string :=
  BASE_API ++ "/ConsultaVia?"
  ++ "Provincia=" ++ quote province ++ "&Municipio=" ++ quote municipality
  ++ "&TipoVia=&NombreVia=" ++ quote street_query.

(** The loop of [discover_streets] over [enumerate(names)], from index [i]. *)
Fixpoint pair_streets (i : nat) (names types : list string)
  : list (string * string) :=
  match names with
  | [] => []
  | name :: rest =>
      let sigla := match nth_error types i with Some t => t | None => "CL" end in
      (sigla, name) :: pair_streets (S i) rest types
  end.

Definition discover_streets (province municipality street_query : string)
  : M (list (string * string)) :=
  let url := via_url province municipality street_query in
  xml_text <- fetch_url url default_retries ;;
  match xml_text with
  | Some (String _ _ as xml_text) =>
      let names := re_findall (element "nv" (not_char "<")) xml_text in
      let types := re_findall (element "tv" (not_char "<")) xml_text in
      let streets := pair_streets 0 names types in
      match streets with
      | [] => ret [("CL", street_query)]
      | _ => ret streets
      end
  | _ => ret [("CL", street_query)]
  end.

(** *** get_property_from_api (lines 102-162) *)

Definition dnploc_url (province municipality : string) (number : Z)
    (street_name street_type : string) : string :=
  BASE_API ++ "/Consulta_DNPLOC?"
  ++ "Provincia=" ++ quote province ++ "&Municipio=" ++ quote municipality
  ++ "&Sigla=" ++ quote street_type ++ "&Calle=" ++ quote street_name
  ++ "&Numero=" ++ str_of_int number ++ "&Bloque=&Escalera=&Planta=&Puerta=".

(** [m.group(1) if m else ""], used where the script appends an optional
    part or defaults to the empty string. *)
Definition group_or_empty (m : option string) : string :=
  match m with Some g => g | None => "" end.

Definition get_property_from_api (province municipality : string) (number : Z)
    (street_name street_type : string) : M (option api_property) :=
  let url := dnploc_url province municipality number street_name street_type in
  xml_text <- fetch_url url default_retries ;;
  match xml_text with
  | Some (String _ _ as xml_text) =>
      if negb (fromstring_ok xml_text) then ret None
      else if match search_from re_cuerr xml_text with
              | Some _ => true | None => false end
      then ret None
      else
        let pc1 := re_search (element "pc1" (not_char "<")) xml_text in
        let pc2 := re_search (element "pc2" (not_char "<")) xml_text in
        let car := re_search (element "car" (not_char "<")) xml_text in
        let cc1 := re_search (element "cc1" (not_char "<")) xml_text in
        let cc2 := re_search (element "cc2" (not_char "<")) xml_text in
        match pc1, pc2 with
        | Some pc1, Some pc2 =>
            let parcel_ref := pc1 ++ pc2 in
            let full_ref :=
              parcel_ref ++ group_or_empty car ++ group_or_empty cc1
              ++ group_or_empty cc2 in
            let sfc := re_search (element "sfc" is_digit) xml_text in
            let built_surface :=
              match sfc with
              | Some g =>
                  (* [int] cannot raise on a match of [\d+]:
                     see [int_of_digits_group] *)
                  match int g with Some n => n | None => 0 end
              | None => 0
              end in
            let ant := re_search (element "ant" is_digit) xml_text in
            let luso := re_search (element "luso" (not_char "<")) xml_text in
            ret (Some {| number := number;
                         street := street_type ++ " " ++ street_name;
                         referencia_catastral := full_ref;
                         parcel_ref := parcel_ref;
                         built_surface_m2 := built_surface;
                         year := group_or_empty ant;
                         use := group_or_empty luso |})
        | _, _ => ret None
        end
  | _ => ret None
  end.

(** *** get_plot_surface (lines 165-191) *)

Definition sede_url (cadastral_ref del_code mun_code : string) : string :=
  SEDE_URL ++ "?UrbRus=U&RefC=" ++ quote cadastral_ref
  ++ "&from=OVCBusqueda&pest=rc&RCCompleta=" ++ quote cadastral_ref
  ++ "&final=&del=" ++ del_code ++ "&mun=" ++ mun_code.

Definition get_plot_surface (cadastral_ref : string)
    (del_code mun_code : option string) : M (option Z) :=
  match del_code, mun_code with
  | Some (String _ _ as del_code), Some (String _ _ as mun_code) =>
      let url := sede_url cadastral_ref del_code mun_code in
      html <- fetch_url url default_retries ;;
      match html with
      | Some (String _ _ as html) =>
          match re_search re_superficie html with
          | Some g =>
              let value := remove_char "." g in
              match int value with
              | Some result =>
                  if result >? 0 then ret (Some result) else ret None
              | None => ret None
              end
          | None => ret None
          end
      | _ => ret None
      end
  | _, _ => ret None
  end.

(** *** main (lines 194-324) *)

Section Scan.
Variable args : Args.t.
Variables province municipality : string.
Variables del_code mun_code : option string.

(** Step 4 (lines 271-281): the value stored under ["plot_surface_m2"]. *)
Definition plot_cell (prop : api_property) : M cell :=
  if negb (Args.no_plot_surface args) then
    plot_surface <- get_plot_surface (referencia_catastral prop)
                      del_code mun_code ;;
    ret (match plot_surface with
         | Some n => if n =? 0 then CStr "" else CInt n
         | None => CStr ""
         end)
  else ret (CStr "").

(** The inner [for num in range(1, args.max_number + 1)] loop (lines
    253-284), run on the numbers still to visit. *)
Fixpoint scan_numbers (street_type street_name : string) (nums : list Z)
    (st : scan_state) : M scan_state :=
  match nums with
  | [] => ret st
  | num :: rest =>
      prop <- get_property_from_api province municipality num
                street_name street_type ;;
      match prop with
      | None =>
          let consecutive_misses := consecutive_misses st + 1 in
          let st := {| consecutive_misses := consecutive_misses;
                       found_in_street := found_in_street st;
                       properties := properties st |} in
          if consecutive_misses >? Args.consecutive_misses args
          then ret st
          else scan_numbers street_type street_name rest st
      | Some prop =>
          plot <- plot_cell prop ;;
          let prop := {| api := prop; plot_surface_m2 := plot |} in
          sleep 300 ;;;
          scan_numbers street_type street_name rest
            {| consecutive_misses := 0;
               found_in_street := found_in_street st + 1;
               properties := (properties st ++ [prop])%list |}
      end
  end.

(** One round of [for street_type, street_name in streets] (lines
    247-286). *)
Definition scan_street (street_type street_name : string)
    (props : list property) : M scan_state :=
  scan_numbers street_type street_name
    (range 1 (Args.max_number args + 1))
    {| consecutive_misses := 0; found_in_street := 0;
       properties := props |}.

(** The outer [for street_type, street_name in streets] loop. *)
Fixpoint scan_streets (streets : list (string * string))
    (props : list property) : M (list property) :=
  match streets with
  | [] => ret props
  | (street_type, street_name) :: rest =>
      st <- scan_street street_type street_name props ;;
      scan_streets rest (properties st)
  end.
End Scan.

(** The sort key [(p["street"], p["number"])] of line 301, compared as
    tuples. *)
Definition key_lt (p q : property) : bool :=
  match String.compare (street (api p)) (street (api q)) with
  | Lt => true
  | Eq => number (api p) <? number (api q)
  | Gt => false
  end.

(** [sorted(..., key=...)] is stable: an element goes in front of the first
    later one whose key is not smaller. *)
Fixpoint insert (p : property) (l : list property) : list property :=
  match l with
  | [] => [p]
  | q :: l' => if key_lt q p then q :: insert p l' else p :: q :: l'
  end.

Definition sorted (l : list property) : list property :=
  fold_right insert [] l.

Definition header : list cell :=
  [CStr "Referencia Catastral"; CStr "Number"; CStr "Street";
   CStr "Built Surface (m2)"; CStr "Plot Surface (m2)"; CStr "Year Built";
   CStr "Use"].

Definition row (prop : property) : list cell :=
  [CStr (referencia_catastral (api prop)); CInt (number (api prop));
   CStr (street (api prop)); CInt (built_surface_m2 (api prop));
   plot_surface_m2 prop; CStr (year (api prop)); CStr (use (api prop))].

Fixpoint write_rows (props : list property) : M unit :=
  match props with
  | [] => ret tt
  | prop :: rest => emit (EvRow (row prop)) ;;; write_rows rest
  end.

(** Step 5: the [with open(...)] block (lines 290-310). *)
Definition write_csv (output_file : string) (props : list property) : M unit :=
  emit (EvOpen output_file) ;;;
  emit (EvRow header) ;;;
  write_rows (sorted props).

Definition output_file (args : Args.t) : string :=
  let municipality := upper (Args.municipality args) in
  let street := upper (Args.street args) in
  match Args.output args with
  | Some (String _ _ as name) => name
  | _ =>
      replace_char " " "_" (lower municipality) ++ "_"
      ++ replace_char " " "_" (lower street) ++ "_catastro.csv"
  end.

(** Step 1 (lines 227-230): the codes, unless [--no-plot-surface]. *)
Definition lookup_codes (args : Args.t) : M (option string * option string) :=
  if negb (Args.no_plot_surface args)
  then lookup_municipality_codes (upper (Args.province args))
         (upper (Args.municipality args))
  else ret (None, None).

(** Steps 1 to 4: everything before the CSV is written; the value is the
    list [properties]. *)
Definition collect (args : Args.t) : M (list property) :=
  let province := upper (Args.province args) in
  let municipality := upper (Args.municipality args) in
  let street := upper (Args.street args) in
  codes <- lookup_codes args ;;
  streets <- discover_streets province municipality street ;;
  scan_streets args province municipality (fst codes) (snd codes) streets [].

Definition main (args : Args.t) : M unit :=
  props <- collect args ;;
  write_csv (output_file args) props.

End Program.

Arguments M {RT} A.

(** ** Reading a trace *)

(** The URLs requested, one entry per [urlopen]. *)
Definition urls (tr : list event) : list string :=
  flat_map (fun e => match e with EvRequest u _ => [u] | _ => [] end) tr.

(** The URLs of the calls of [fetch_url]: every call makes attempt 0 once. *)
Definition calls (tr : list event) : list string :=
  flat_map (fun e => match e with EvRequest u O => [u] | _ => [] end) tr.

(** The rows handed to [writerow]. *)
Definition rows (tr : list event) : list (list cell) :=
  flat_map (fun e => match e with EvRow r => [r] | _ => [] end) tr.

(** The files opened for writing. *)
Definition opened (tr : list event) : list string :=
  flat_map (fun e => match e with EvOpen f => [f] | _ => [] end) tr.

Definition is_network (e : event) : bool :=
  match e with EvRequest _ _ | EvSleep _ => true | _ => false end.

Definition is_municipio (url : string) : bool :=
  String.prefix (BASE_API ++ "/ConsultaMunicipio?") url.
Definition is_via (url : string) : bool :=
  String.prefix (BASE_API ++ "/ConsultaVia?") url.
Definition is_probe (url : string) : bool :=
  String.prefix (BASE_API ++ "/Consulta_DNPLOC?") url.
Definition is_sede (url : string) : bool :=
  String.prefix (SEDE_URL ++ "?") url.

(** The text after the first ["//"]. *)
Fixpoint after_slashes (url : string) : string :=
  match url with
  | String "/" (String "/" rest) => rest
  | String _ rest => after_slashes rest
  | EmptyString => EmptyString
  end.

Fixpoint until_slash (s : string) : string :=
  match s with
  | String "/" _ => EmptyString
  | String c rest => String c (until_slash rest)
  | EmptyString => EmptyString
  end.

(** The host a URL is addressed to. *)
Definition host_of (url : string) : string := until_slash (after_slashes url).

(** What [n] successive calls of [urlopen url] answer, from world [w]. *)
Fixpoint replies {RT : Runtime} (url : string) (n : nat) (w : World)
  : list response :=
  match n with
  | O => []
  | S n' => let '(r, w') := urlopen url w in r :: replies url n' w'
  end.

(** [n] attempts on [url], numbered from [i], two seconds apart. *)
Fixpoint attempts (url : string) (i n : nat) : list event :=
  match n with
  | O => []
  | S O => [EvRequest url i]
  | S n' => EvRequest url i :: EvSleep 2000 :: attempts url (S i) n'
  end.

(** [p] is not after [q] in the order of the sort key. *)
Definition key_le (p q : property) : Prop := key_lt q p = false.

(** ** The scan of a street as a relation between its iterations *)

(** What one iteration found: the number probed and, on a hit, the property
    appended to [properties]. *)
Definition iteration : Type := Z * option property.

Definition hits (log : list iteration) : list property :=
  flat_map (fun it => match snd it with Some p => [p] | None => [] end) log.

Definition is_miss (it : iteration) : Prop := snd it = None.

(** The value of [consecutive_misses] after the iterations of [log], from the
    value [c]: one more on a miss, zero on a hit. *)
Definition counter_after (c : Z) (log : list iteration) : Z :=
  fold_left (fun c it => match snd it with None => c + 1 | Some _ => 0 end)
    log c.

Section ScanRun.
Context {RT : Runtime}.
Variable args : Args.t.
Variables province municipality : string.
Variables del_code mun_code : option string.
Variables street_type street_name : string.

Definition missed (st : scan_state) : scan_state :=
  {| consecutive_misses := consecutive_misses st + 1;
     found_in_street := found_in_street st;
     properties := properties st |}.

Definition found (st : scan_state) (prop : property) : scan_state :=
  {| consecutive_misses := 0;
     found_in_street := found_in_street st + 1;
     properties := (properties st ++ [prop])%list |}.

(** [scan_run nums st w log st' tr w']: from the variables [st] and the
    world [w], the loop over [nums] makes the iterations [log] and ends
    with [st'] in [w'], having done [tr]. *)
Inductive scan_run
  : list Z -> scan_state -> World -> list iteration ->
    scan_state -> list event -> World -> Prop :=
| run_exhausted st w : scan_run [] st w [] st [] w
| run_break num rest st w tp w1 :
    get_property_from_api province municipality num street_name street_type w
      = (None, tp, w1) ->
    Args.consecutive_misses args < consecutive_misses st + 1 ->
    scan_run (num :: rest) st w [(num, None)] (missed st) tp w1
| run_miss num rest st w tp w1 log st' tr w' :
    get_property_from_api province municipality num street_name street_type w
      = (None, tp, w1) ->
    consecutive_misses st + 1 <= Args.consecutive_misses args ->
    scan_run rest (missed st) w1 log st' tr w' ->
    scan_run (num :: rest) st w ((num, None) :: log) st' (tp ++ tr) w'
| run_hit num rest st w prop tp w1 plot tc w2 log st' tr w' :
    get_property_from_api province municipality num street_name street_type w
      = (Some prop, tp, w1) ->
    plot_cell args del_code mun_code prop w1 = (plot, tc, w2) ->
    let stored := {| api := prop; plot_surface_m2 := plot |} in
    scan_run rest (found st stored) w2 log st' tr w' ->
    scan_run (num :: rest) st w ((num, Some stored) :: log) st'
      (tp ++ tc ++ EvSleep 300 :: tr) w'.
End ScanRun.

(** ** Vocabulary of the statements about the parsers *)

(** A non-empty text of characters of the class [cls]. *)
Definition run_of (cls : ascii -> bool) (t : string) : Prop :=
  t <> EmptyString /\ all_chars cls t = true.

(** Every item of [re] in the group is [cls+]. *)
Definition group_is_run (cls : ascii -> bool) (re : regex) : Prop :=
  forall it, In it re -> item_group it = true ->
    item_quant it = Plus /\ forall c, item_class it c = true -> cls c = true.

(** [re.search(r"<tag>([^<]+)</tag>", text)] *)
Definition field (tag text : string) : option string :=
  re_search (element tag (not_char "<")) text.

(** [re.search(r"<tag>(\d+)</tag>", text)] *)
Definition digits_field (tag text : string) : option string :=
  re_search (element tag is_digit) text.


(** [re.findall(r"<nv>([^<]+)</nv>", text)] and the same for [<tv>]. *)
Definition street_names (text : string) : list string :=
  re_findall (element "nv" (not_char "<")) text.
Definition street_types (text : string) : list string :=
  re_findall (element "tv" (not_char "<")) text.

(** [types[i] if i < len(types) else "CL"] *)
Definition type_at (types : list string) (i : nat) : string :=
  match nth_error types i with Some t => t | None => "CL" end.

(** The hosts of [BASE_API] and of [SEDE_URL]. *)
Definition ovc_host : string := "ovc.catastro.meh.es".
Definition sede_host : string := "www1.sedecatastro.gob.es".

(** ** Vocabulary of the statements about a whole run *)

(** Plot surfaces are fetched: no [--no-plot-surface], and both codes. *)
Definition plots_enabled (args : Args.t) (del_code mun_code : option string)
  : bool :=
  (negb (Args.no_plot_surface args) && truthy del_code && truthy mun_code)%bool.

(** The viewer page of a property. *)
Definition viewer_url (del_code mun_code : option string) (p : property)
  : string :=
  sede_url (referencia_catastral (api p)) (group_or_empty del_code)
    (group_or_empty mun_code).

(** The URLs probed on a street, given the iterations of its scan. *)
Definition street_probes (province municipality : string)
    (scan : (string * string) * list iteration) : list string :=
  let '((street_type, street_name), log) := scan in
  map (fun num => dnploc_url province municipality num street_name street_type)
    (map fst log).

(** The calls of [fetch_url] of one iteration: the probe of the number and,
    on a hit with plot surfaces enabled, the viewer page of the property. *)
Definition iteration_calls (args : Args.t) (province municipality : string)
    (del_code mun_code : option string) (street_type street_name : string)
    (it : iteration) : list string :=
  dnploc_url province municipality (fst it) street_name street_type
  :: match snd it with
     | Some p =>
         if plots_enabled args del_code mun_code
         then [viewer_url del_code mun_code p] else []
     | None => []
     end.

(** The calls of [fetch_url] of the scan of a street. *)
Definition street_calls (args : Args.t) (province municipality : string)
    (del_code mun_code : option string)
    (scan : (string * string) * list iteration) : list string :=
  let '((street_type, street_name), log) := scan in
  flat_map (iteration_calls args province municipality del_code mun_code
              street_type street_name) log.

(** The iterations [log] are on the numbers 1, 2, ... up to at most
    [max_number], and every hit is stored under its number and the name of
    the street. *)
Definition street_log (max_number : Z) (scanned : string * string)
    (log : list iteration) : Prop :=
  map fst log = range 1 (1 + Z.of_nat (List.length log)) /\
  Z.of_nat (List.length log) <= Z.max 0 max_number /\
  Forall (fun it => forall p, snd it = Some p ->
            number (api p) = fst it /\
            street (api p) = fst scanned ++ " " ++ snd scanned) log.

Definition sort_key (p : property) : string * Z :=
  (street (api p), number (api p)).

(** The order of Python on the tuples [(str, int)]: [a <= b]. *)
Definition tuple_le (a b : string * Z) : Prop :=
  String_as_OT.lt (fst a) (fst b) \/ (fst a = fst b /\ snd a <= snd b).

(** The order of the steps as the specification words it: the codes are
    looked up first, the streets discovered next, and the scan that follows
    fetches the viewer page once for every row of data written. *)
Definition fixed_order_as_specified {RT : Runtime} (args : Args.t) (w : World)
  : Prop :=
  let tr := trace (main args w) in
  exists scan,
    calls tr
    = municipio_url (upper (Args.province args)) (upper (Args.municipality args))
      :: via_url (upper (Args.province args)) (upper (Args.municipality args))
           (upper (Args.street args))
      :: scan /\
    Forall (fun u => is_probe u = true \/ is_sede u = true) scan /\
    S (List.length (filter is_sede scan)) = List.length (rows tr).

(** ** Vocabulary of the further statements *)

(** The pauses of a trace, in milliseconds. *)
Definition pauses (tr : list event) : list Z :=
  flat_map (fun e => match e with EvSleep ms => [ms] | _ => [] end) tr.

(** The number of pauses of 0.3 s. *)
Definition short_pauses (tr : list event) : nat :=
  List.length (filter (Z.eqb 300) (pauses tr)).

(** The number of occurrences of a character in a text. *)
Fixpoint count_char (c : ascii) (s : string) : nat :=
  match s with
  | EmptyString => O
  | String x s' => ((if Ascii.eqb x c then 1 else 0) + count_char c s')%nat
  end.

(** What [quote] writes: a character it does not escape, or part of an
    escape. *)
Definition url_safe (c : ascii) : bool :=
  (is_unreserved c || Ascii.eqb c "%")%bool.

(** What [str] writes for an [int]. *)
Definition is_sign_or_digit (c : ascii) : bool :=
  (is_digit c || Ascii.eqb c "-")%bool.

(** The property has the sort key [k]. *)
Definition has_key (k : string * Z) (p : property) : bool :=
  (String.eqb (street (api p)) (fst k) && (number (api p) =? snd k))%bool.

(** The text holds the element [<tag>content</tag>]. *)
Definition holds_element (tag content text : string) : Prop :=
  exists before after,
    text = before ++ ("<" ++ tag ++ ">") ++ content ++ ("</" ++ tag ++ ">")
           ++ after.

(** What a plot-surface cell of the CSV can hold. *)
Definition plot_cell_ok (c : cell) : Prop :=
  c = CStr "" \/ exists n, c = CInt n /\ 0 < n.

(** The property was stored by an iteration of a scan: its dictionary was
    returned by [get_property_from_api] and its plot cell by step 4. *)
Definition collected_by {RT : Runtime} (args : Args.t)
    (province municipality : string) (del_code mun_code : option string)
    (p : property) : Prop :=
  exists num street_name street_type w0 w1,
    value (get_property_from_api province municipality num
             street_name street_type w0) = Some (api p) /\
    plot_surface_m2 p = value (plot_cell args del_code mun_code (api p) w1).

(** Every iteration of the log found a property. *)
Definition all_hits (log : list iteration) : Prop :=
  Forall (fun it => snd it <> None) log.

(** ** A scripted registry, to run the script on

    The world is the number of requests made so far.  The municipality
    ALMOROX of TOLEDO has one street, CL REAL, with buildings at numbers 2
    and 4, the second with nothing but its parcel reference; every viewer
    page shows a plot of 1.052 m2; the first three requests for anything
    else time out, the later ones are answered with an error. *)

Definition demo_building : string :=
  "<bico><pc1>1234567</pc1><pc2>UK7613S</pc2><car>0001</car><cc1>A</cc1>"
  ++ "<cc2>B</cc2><luso>Residencial</luso><sfc>120</sfc><ant>1975</ant></bico>".

Definition demo_bare_building : string :=
  "<bico><pc1>7654321</pc1><pc2>UK7613N</pc2></bico>".

Definition demo_viewer : string :=
  "<span>Superficie gr" ++ String (ascii_of_N 225) "fica</span>"
  ++ "<label>1.052 m2</label>".

Definition demo_urlopen (municipio_body url : string) (n : nat)
  : response * nat :=
  (if String.eqb url (municipio_url "TOLEDO" "ALMOROX")
   then Body municipio_body
   else if String.eqb url (via_url "TOLEDO" "ALMOROX" "REAL")
   then Body "<calle><dir><tv>CL</tv><nv>REAL</nv></dir></calle>"
   else if String.eqb url (dnploc_url "TOLEDO" "ALMOROX" 2 "REAL" "CL")
   then Body demo_building
   else if String.eqb url (dnploc_url "TOLEDO" "ALMOROX" 4 "REAL" "CL")
   then Body demo_bare_building
   else if is_sede url then Body demo_viewer
   else if (n <? 3)%nat then Failure
   else Body "<err><cuerr>1</cuerr></err>",
   S n).

Fixpoint map_chars (f : ascii -> ascii) (s : string) : string :=
  match s with
  | EmptyString => EmptyString
  | String c s' => String (f c) (map_chars f s')
  end.

(** [str.upper] and [str.lower] on ASCII texts. *)
Definition ascii_upper : string -> string :=
  map_chars (fun c => if between 97 122 c then ascii_of_N (code c - 32) else c).
Definition ascii_lower : string -> string := map_chars fold_case.

(** Every body this registry serves to an API query is well-formed XML. *)
Definition demo_registry (municipio_body : string) : Runtime :=
  {| World := nat;
     urlopen := demo_urlopen municipio_body;
     fromstring_ok := fun _ => true;
     upper := ascii_upper;
     lower := ascii_lower |}.

Definition demo : Runtime :=
  demo_registry "<locat><cd>45</cd><cmc>13</cmc></locat>".

(** The same registry, except that it does not know the codes of ALMOROX. *)
Definition demo_without_codes : Runtime :=
  demo_registry "<err><cuerr>1</cuerr></err>".

(** Two properties of one street, to sort. *)
Definition demo_property (num : Z) : property :=
  {| api := {| number := num; street := "CL REAL";
               referencia_catastral := "1234567UK7613S"; parcel_ref := "1234567UK7613S";
               built_surface_m2 := 0; year := ""; use := "" |};
     plot_surface_m2 := CStr "" |}.

Definition demo_args (no_plot : bool) : Args.t :=
  {| Args.province := "TOLEDO";
     Args.municipality := "ALMOROX";
     Args.street := "REAL";
     Args.max_number := 8;
     Args.consecutive_misses := 1;
     Args.output := None;
     Args.no_plot_surface := no_plot |}.

(** * Properties *)

(** ** The text primitives on examples *)

Example search_pc1 :
  re_search (element "pc1" (not_char "<")) "<bi><pc1>1234567</pc1><pc2>VK1613S</pc2></bi>"
  = Some "1234567".
Proof. reflexivity. Qed.

Example search_sfc_rejects_letters :
  re_search (element "sfc" is_digit) "<sfc>12a</sfc><sfc>98</sfc>" = Some "98".
Proof. reflexivity. Qed.

Example findall_nv :
  re_findall (element "nv" (not_char "<")) "<nv>REAL</nv><tv>CL</tv><nv>REAL DE ABAJO</nv>"
  = ["REAL"; "REAL DE ABAJO"].
Proof. reflexivity. Qed.

Example search_superficie :
  re_search re_superficie
    ("<span>SUPERFICIE  gr" ++ String (ascii_of_N 225) "fica</span><label class=x>1.052 m2</label>")
  = Some "1.052".
Proof. vm_compute. reflexivity. Qed.

Example quote_examples :
  quote "SAN MARTIN" = "SAN%20MARTIN"
  /\ quote ("A" ++ String (ascii_of_N 209) "O/1") = "A%C3%91O/1"
  /\ str_of_int 120 = "120" /\ int "1052" = Some 1052 /\ int "" = None.
Proof. vm_compute. repeat split. Qed.

Example defaults province municipality street_query :
  Args.max_number (default_arguments province municipality street_query) = 500
  /\ Args.consecutive_misses
       (default_arguments province municipality street_query) = 40
  /\ default_retries = 3%nat.
Proof. repeat split. Qed.

Example demo_run :
  rows (trace (main (RT := demo) (demo_args false) 0%nat))
  = [header;
     [CStr "1234567UK7613S0001AB"; CInt 2; CStr "CL REAL"; CInt 120;
      CInt 1052; CStr "1975"; CStr "Residencial"];
     [CStr "7654321UK7613N"; CInt 4; CStr "CL REAL"; CInt 0;
      CInt 1052; CStr ""; CStr ""]]
  /\ opened (trace (main (RT := demo) (demo_args false) 0%nat))
     = ["almorox_real_catastro.csv"].
Proof. vm_compute. split; reflexivity. Qed.

(** ** The program monad *)

Section MonadFacts.
Context {RT : Runtime}.

Lemma bind_run {A B} (m : M A) (f : A -> M B) w :
  bind m f w =
  (value (f (value (m w)) (world_after (m w))),
   trace (m w) ++ trace (f (value (m w)) (world_after (m w))),
   world_after (f (value (m w)) (world_after (m w))))%list.
Proof.
  unfold bind. destruct (m w) as [[a t1] w1]. cbn.
  destruct (f a w1) as [[b t2] w2]. reflexivity.
Qed.

Lemma trace_bind {A B} (m : M A) (f : A -> M B) w :
  trace (bind m f w)
  = (trace (m w) ++ trace (f (value (m w)) (world_after (m w))))%list.
Proof. rewrite bind_run. reflexivity. Qed.

Lemma value_bind {A B} (m : M A) (f : A -> M B) w :
  value (bind m f w) = value (f (value (m w)) (world_after (m w))).
Proof. rewrite bind_run. reflexivity. Qed.

Lemma world_bind {A B} (m : M A) (f : A -> M B) w :
  world_after (bind m f w)
  = world_after (f (value (m w)) (world_after (m w))).
Proof. rewrite bind_run. reflexivity. Qed.
End MonadFacts.

(** ** fetch_url *)

Section FetchFacts.
Context {RT : Runtime}.

(** The three ways a call of [fetch_url] can go. *)
Lemma fetch_url_cases url w :
  let r := fetch_url url default_retries w in
  exists n,
    (1 <= n <= 3)%nat /\
    trace r = attempts url 0 n /\
    match value r with
    | Some body => replies url n w = (repeat Failure (n - 1) ++ [Body body])%list
    | None => n = 3%nat /\ replies url n w = repeat Failure 3
    end.
Proof.
  unfold fetch_url, default_retries. cbn.
  unfold bind, request, sleep, emit, ret, value, trace. cbn.
  destruct (urlopen url w) as [[body0|] w1] eqn:E0; cbn.
  - exists 1%nat. cbn. rewrite E0. repeat split; lia.
  - destruct (urlopen url w1) as [[body1|] w2] eqn:E1; cbn.
    + exists 2%nat. cbn. rewrite E0, E1. repeat split; lia.
    + destruct (urlopen url w2) as [[body2|] w3] eqn:E2; cbn.
      * exists 3%nat. cbn. rewrite E0, E1, E2. repeat split; lia.
      * exists 3%nat. cbn. rewrite E0, E1, E2. repeat split; lia.
Qed.

Lemma calls_attempts url n i :
  calls (attempts url (S i) n) = [].
Proof.
  revert i. induction n as [|n IH]; intros i; [reflexivity|].
  destruct n as [|n]; [reflexivity|].
  change (calls (attempts url (S i) (S (S n))))
    with (calls (attempts url (S (S i)) (S n))).
  apply IH.
Qed.

Lemma urls_attempts url n i :
  urls (attempts url i n) = repeat url n.
Proof.
  revert i. induction n as [|n IH]; intros i; [reflexivity|].
  destruct n as [|n]; [reflexivity|].
  change (urls (attempts url i (S (S n))))
    with (url :: urls (attempts url (S i) (S n))).
  now rewrite IH.
Qed.

Lemma network_attempts url n i :
  forallb is_network (attempts url i n) = true.
Proof.
  revert i. induction n as [|n IH]; intros i; [reflexivity|].
  destruct n as [|n]; [reflexivity|].
  change (attempts url i (S (S n)))
    with (EvRequest url i :: EvSleep 2000 :: attempts url (S i) (S n)).
  cbn [forallb is_network andb]. apply IH.
Qed.

(** A call of [fetch_url] shows as one attempt 0, on its URL. *)
Lemma calls_fetch_url url w :
  calls (trace (fetch_url url default_retries w)) = [url].
Proof.
  destruct (fetch_url_cases url w) as (n & Hn & Ht & _).
  cbv zeta in Ht. rewrite Ht.
  destruct n as [|n]; [lia|].
  destruct n as [|n]; [reflexivity|].
  change (calls (attempts url 0 (S (S n))))
    with (url :: calls (attempts url 1 (S n))).
  now rewrite calls_attempts.
Qed.

Lemma urls_fetch_url url w :
  Forall (eq url) (urls (trace (fetch_url url default_retries w))).
Proof.
  destruct (fetch_url_cases url w) as (n & _ & Ht & _).
  cbv zeta in Ht. rewrite Ht, urls_attempts.
  apply Forall_forall. intros x Hx. symmetry. eapply repeat_spec; eauto.
Qed.

Lemma network_fetch_url url w :
  forallb is_network (trace (fetch_url url default_retries w)) = true.
Proof.
  destruct (fetch_url_cases url w) as (n & _ & Ht & _).
  cbv zeta in Ht. rewrite Ht. apply network_attempts.
Qed.
End FetchFacts.

(** C4.  With its default of three tries, [fetch_url] makes between one and
    three attempts on the URL, two seconds apart and nothing else; every
    attempt but the last one failed; it returns the body exactly when the
    last attempt made yields it, and [None] exactly when every attempt made
    failed, which takes all three. *)
Theorem fetch_url_linear_backoff {RT : Runtime} (url : string) (w : World) :
  let r := fetch_url url default_retries w in
  exists n,
    (1 <= n <= 3)%nat /\
    trace r = attempts url 0 n /\
    firstn (n - 1) (replies url n w) = repeat Failure (n - 1) /\
    (forall body,
        value r = Some body <->
        nth_error (replies url n w) (n - 1) = Some (Body body)) /\
    (value r = None <-> replies url n w = repeat Failure n) /\
    (value r = None -> n = 3%nat).
Proof.
  destruct (fetch_url_cases url w) as (n & Hn & Ht & Hv).
  cbv zeta in *. exists n. split; [exact Hn|]. split; [exact Ht|].
  assert (Hcases : n = 1%nat \/ n = 2%nat \/ n = 3%nat) by lia.
  destruct (value (fetch_url url default_retries w)) as [body|].
  - rewrite Hv.
    destruct Hcases as [-> | [-> | ->]]; cbn;
      (split; [reflexivity|]);
      (split; [intros b; split; intros H; congruence|]);
      split; try (split; intros H; discriminate); intros H; discriminate.
  - destruct Hv as [-> Hv]. rewrite Hv. cbn.
    split; [reflexivity|].
    split; [intros b; split; intros H; discriminate|].
    split; [split; reflexivity | reflexivity].
Qed.

(** On the scripted registry the first three requests for an unknown URL
    time out: all three attempts are made. *)
Lemma fetch_url_linear_backoff_witness :
  exists n,
    trace (fetch_url (RT := demo) "https://ovc.catastro.meh.es/nothing"
             default_retries 0%nat)
    = attempts "https://ovc.catastro.meh.es/nothing" 0 n /\ n = 3%nat.
Proof.
  destruct (fetch_url_linear_backoff (RT := demo)
              "https://ovc.catastro.meh.es/nothing" 0%nat)
    as (n & _ & Ht & _ & _ & _ & H3).
  exists n. split; [exact Ht|]. apply H3. reflexivity.
Defined.

(** ** Regular expressions: what the group of a match holds *)

Section GroupFacts.
Variable cls : ascii -> bool.

Lemma all_chars_snoc p t c :
  all_chars p (snoc t c) = (all_chars p t && p c)%bool.
Proof.
  induction t as [|x t IH]; cbn.
  - now rewrite andb_true_r.
  - rewrite IH. now rewrite andb_assoc.
Qed.

Lemma run_of_snoc t c : run_of cls t -> cls c = true -> run_of cls (snoc t c).
Proof.
  intros [Hne Hall] Hc. split.
  - destruct t; discriminate.
  - rewrite all_chars_snoc, Hall, Hc. reflexivity.
Qed.

Section Quantifiers.
Context {R : Type}.
Variable c0 : ascii -> bool.
Variable k : string -> string -> option R.
Variable Inv : string -> Prop.
Hypothesis Inv_snoc :
  forall t c, Inv t -> c0 c = true -> Inv (snoc t c).

Lemma greedy_inv s : forall taken r,
  Inv taken -> greedy c0 k taken s = Some r ->
  exists taken' s', Inv taken' /\ k taken' s' = Some r.
Proof.
  induction s as [|c s IH]; intros taken r HI H; cbn in H.
  - eauto.
  - destruct (c0 c) eqn:Hc; [|eauto].
    destruct (greedy c0 k (snoc taken c) s) as [r'|] eqn:Hg; [|eauto].
    inversion H; subst r'. eapply IH; [|exact Hg]. auto.
Qed.

Lemma lazy_inv s : forall taken r,
  Inv taken -> lazy c0 k taken s = Some r ->
  exists taken' s', Inv taken' /\ k taken' s' = Some r.
Proof.
  induction s as [|c s IH]; intros taken r HI H; cbn in H.
  - destruct (k taken EmptyString) eqn:Hk; [|discriminate].
    inversion H; subst. eauto.
  - destruct (k taken (String c s)) eqn:Hk.
    + inversion H; subst. eauto.
    + destruct (c0 c) eqn:Hc; [|discriminate].
      eapply IH; [|exact H]. auto.
Qed.
End Quantifiers.

Lemma match_here_group re : forall g s g' rest,
  group_is_run cls re ->
  match_here re g s = Some (g', rest) ->
  run_of cls g \/ existsb item_group re = true ->
  run_of cls g'.
Proof.
  induction re as [|it re IH]; intros g s g' rest Hre H Hg.
  - cbn in H. inversion H; subst. destruct Hg as [Hg|Hg]; [exact Hg|discriminate].
  - assert (Hre' : group_is_run cls re) by (intros i Hi; apply Hre; now right).
    cbn [match_here] in H.
    destruct (item_group it) eqn:Hgrp.
    + destruct (Hre it (or_introl eq_refl) Hgrp) as [Hq Hc].
      rewrite Hq in H.
      destruct s as [|c s]; [discriminate|].
      destruct (item_class it c) eqn:Hcc; [|discriminate].
      apply (greedy_inv (item_class it) _ (run_of cls)) in H.
      * destruct H as (t' & s' & Ht' & Hk).
        eapply IH; [exact Hre'|exact Hk|now left].
      * intros t x Ht Hx. apply run_of_snoc; auto.
      * split; [discriminate|]. cbn. now rewrite (Hc c Hcc).
    + assert (Hg' : run_of cls g \/ existsb item_group re = true).
      { destruct Hg as [Hg|Hg]; [now left|]. cbn in Hg. rewrite Hgrp in Hg.
        now right. }
      destruct (item_quant it).
      * destruct s as [|c s]; [discriminate|].
        destruct (item_class it c); [|discriminate]. eauto.
      * destruct s as [|c s]; [discriminate|].
        destruct (item_class it c); [|discriminate].
        apply (greedy_inv (item_class it) _ (fun _ => True)) in H; auto.
        destruct H as (t' & s' & _ & Hk). eauto.
      * apply (greedy_inv (item_class it) _ (fun _ => True)) in H; auto.
        destruct H as (t' & s' & _ & Hk). eauto.
      * apply (lazy_inv (item_class it) _ (fun _ => True)) in H; auto.
        destruct H as (t' & s' & _ & Hk). eauto.
Qed.

Lemma search_from_here re s : forall r,
  search_from re s = Some r ->
  exists s', match_here re EmptyString s' = Some r.
Proof.
  induction s as [|c s IH]; intros r H; cbn in H.
  - destruct (match_here re EmptyString EmptyString) eqn:E; [|discriminate].
    inversion H; subst. eauto.
  - destruct (match_here re EmptyString (String c s)) eqn:E.
    + inversion H; subst. eauto.
    + eauto.
Qed.

Lemma lits_no_group s it : In it (lits s) -> item_group it = false.
Proof.
  induction s as [|c s IH]; cbn; [tauto|].
  intros [<-|H]; [reflexivity|auto].
Qed.

Lemma element_group_is_run tag : group_is_run cls (element tag cls).
Proof.
  intros it Hin Hg. unfold element in Hin.
  apply in_app_or in Hin. destruct Hin as [Hin|Hin].
  - apply lits_no_group in Hin. congruence.
  - apply in_app_or in Hin. destruct Hin as [Hin|Hin].
    + destruct Hin as [<-|[]]. cbn. auto.
    + apply lits_no_group in Hin. congruence.
Qed.

Lemma element_has_group tag : existsb item_group (element tag cls) = true.
Proof.
  unfold element. rewrite !existsb_app. cbn. now rewrite orb_true_r.
Qed.

(** [m.group(1)] of a match of [<tag>(cls+)</tag>]. *)
Lemma element_group tag s g :
  re_search (element tag cls) s = Some g -> run_of cls g.
Proof.
  unfold re_search. intros H.
  destruct (search_from (element tag cls) s) as [[g' rest]|] eqn:E;
    [|discriminate].
  cbn in H. inversion H; subst g'.
  apply search_from_here in E. destruct E as (s' & E).
  eapply match_here_group; [apply element_group_is_run|exact E|].
  right. apply element_has_group.
Qed.
End GroupFacts.

Lemma digits_value_nonneg s : forall acc, 0 <= acc -> 0 <= digits_value acc s.
Proof.
  induction s as [|c s IH]; intros acc Hacc; cbn [digits_value];
    [exact Hacc|].
  apply IH. pose proof (N2Z.is_nonneg (code c - 48)). lia.
Qed.

(** [int] does not raise on a match of [(\d+)]. *)
Lemma int_of_digits_group tag s g :
  re_search (element tag is_digit) s = Some g ->
  int g = Some (digits_value 0 g) /\ 0 <= digits_value 0 g.
Proof.
  intros H. apply element_group in H. destruct H as [Hne Hall].
  split; [|apply digits_value_nonneg; lia].
  unfold int. destruct g; [congruence|]. now rewrite Hall.
Qed.

(** ** get_property_from_api *)

Section PropertyFacts.
Context {RT : Runtime}.
Variables province municipality : string.
Variable num : Z.
Variables street_name street_type : string.

Let url := dnploc_url province municipality num street_name street_type.

Lemma get_property_run w :
  let f := fetch_url url default_retries w in
  let r := get_property_from_api province municipality num
             street_name street_type w in
  trace r = trace f /\ world_after r = world_after f.
Proof.
  cbv zeta. unfold get_property_from_api. fold url.
  rewrite trace_bind, world_bind.
  destruct (value (fetch_url url default_retries w)) as [[|c s]|];
    try (split; [apply app_nil_r|reflexivity]).
  destruct (fromstring_ok (String c s));
    try (split; [apply app_nil_r|reflexivity]).
  destruct (search_from re_cuerr (String c s));
    try (split; [apply app_nil_r|reflexivity]).
  destruct (re_search (element "pc1" (not_char "<")) (String c s));
    try (split; [apply app_nil_r|reflexivity]).
  destruct (re_search (element "pc2" (not_char "<")) (String c s));
    split; try apply app_nil_r; reflexivity.
Qed.

Lemma calls_get_property w :
  calls (trace (get_property_from_api province municipality num
                  street_name street_type w)) = [url].
Proof.
  destruct (get_property_run w) as [-> _]. apply calls_fetch_url.
Qed.

Lemma urls_get_property w :
  Forall (eq url)
    (urls (trace (get_property_from_api province municipality num
                    street_name street_type w))).
Proof.
  destruct (get_property_run w) as [-> _]. apply urls_fetch_url.
Qed.

Lemma network_get_property w :
  forallb is_network
    (trace (get_property_from_api province municipality num
              street_name street_type w)) = true.
Proof.
  destruct (get_property_run w) as [-> _]. apply network_fetch_url.
Qed.

(** What a hit holds, field by field. *)
Lemma get_property_hit w xml_text pc1 pc2 :
  value (fetch_url url default_retries w) = Some xml_text ->
  fromstring_ok xml_text = true ->
  search_from re_cuerr xml_text = None ->
  field "pc1" xml_text = Some pc1 ->
  field "pc2" xml_text = Some pc2 ->
  value (get_property_from_api province municipality num
           street_name street_type w)
  = Some {| number := num;
            street := street_type ++ " " ++ street_name;
            referencia_catastral :=
              (pc1 ++ pc2) ++ group_or_empty (field "car" xml_text)
              ++ group_or_empty (field "cc1" xml_text)
              ++ group_or_empty (field "cc2" xml_text);
            parcel_ref := pc1 ++ pc2;
            built_surface_m2 :=
              match digits_field "sfc" xml_text with
              | Some g => digits_value 0 g
              | None => 0
              end;
            year := group_or_empty (digits_field "ant" xml_text);
            use := group_or_empty (field "luso" xml_text) |}.
Proof.
  unfold field, digits_field. intros Hf Hok Herr H1 H2.
  unfold get_property_from_api. fold url. rewrite value_bind, Hf.
  destruct xml_text as [|c s]; [discriminate H1|].
  rewrite Hok, Herr, H1, H2. cbn [negb]. unfold ret, value. cbn [fst].
  do 2 f_equal.
  destruct (re_search (element "sfc" is_digit) (String c s)) as [g|] eqn:E;
    [|reflexivity].
  apply int_of_digits_group in E. destruct E as [-> _]. reflexivity.
Qed.


Lemma get_property_some w prop :
  value (get_property_from_api province municipality num
           street_name street_type w) = Some prop ->
  number prop = num /\ street prop = street_type ++ " " ++ street_name.
Proof.
  unfold get_property_from_api. fold url. rewrite value_bind.
  destruct (value (fetch_url url default_retries w)) as [[|c s]|];
    try discriminate.
  destruct (fromstring_ok (String c s)); try discriminate. cbn [negb].
  destruct (search_from re_cuerr (String c s)); try discriminate.
  destruct (re_search (element "pc1" (not_char "<")) (String c s));
    try discriminate.
  destruct (re_search (element "pc2" (not_char "<")) (String c s));
    try discriminate.
  unfold ret, value. cbn [fst]. intros H. inversion H. split; reflexivity.
Qed.
End PropertyFacts.



(** ** discover_streets *)

Lemma pair_streets_nth names types : forall j i,
  nth_error (pair_streets j names types) i
  = option_map (fun name => (type_at types (j + i), name)) (nth_error names i).
Proof.
  induction names as [|name names IH]; intros j i.
  - destruct i; reflexivity.
  - destruct i as [|i]; cbn.
    + now rewrite Nat.add_0_r.
    + rewrite IH. now rewrite Nat.add_succ_r.
Qed.

Lemma pair_streets_names names types : forall j,
  map snd (pair_streets j names types) = names.
Proof.
  induction names as [|name names IH]; intros j; cbn; [reflexivity|].
  now rewrite IH.
Qed.

Section StreetFacts.
Context {RT : Runtime}.
Variables province municipality street_query : string.

Let url := via_url province municipality street_query.

Lemma discover_streets_run w :
  trace (discover_streets province municipality street_query w)
  = trace (fetch_url url default_retries w) /\
  world_after (discover_streets province municipality street_query w)
  = world_after (fetch_url url default_retries w).
Proof.
  unfold discover_streets. fold url. rewrite trace_bind, world_bind.
  destruct (value (fetch_url url default_retries w)) as [[|c s]|];
    try (split; [apply app_nil_r|reflexivity]).
  destruct (pair_streets 0 _ _);
    split; try apply app_nil_r; reflexivity.
Qed.

Lemma discover_streets_value w :
  value (discover_streets province municipality street_query w)
  = match value (fetch_url url default_retries w) with
    | Some text =>
        match street_names text with
        | [] => [("CL", street_query)]
        | names => pair_streets 0 names (street_types text)
        end
    | None => [("CL", street_query)]
    end.
Proof.
  unfold discover_streets, street_names, street_types. fold url.
  rewrite value_bind.
  destruct (value (fetch_url url default_retries w)) as [[|c s]|];
    try reflexivity.
  destruct (re_findall (element "nv" (not_char "<")) (String c s));
    reflexivity.
Qed.
End StreetFacts.

(** C8.  [discover_streets] never returns the empty list.  It returns the
    single entry [("CL", street_query)] when [fetch_url] returns [None] and
    when the body holds no [<nv>] name; otherwise it returns the names in
    order, each paired with the [<tv>] type of the same index, or with
    ["CL"] where there is none. *)
Theorem discover_streets_nonempty {RT : Runtime}
    (province municipality street_query : string) (w : World) :
  let f := fetch_url (via_url province municipality street_query)
             default_retries w in
  let r := discover_streets province municipality street_query w in
  value r <> [] /\
  (value f = None -> value r = [("CL", street_query)]) /\
  (forall text,
     value f = Some text -> street_names text = [] ->
     value r = [("CL", street_query)]) /\
  (forall text,
     value f = Some text -> street_names text <> [] ->
     map snd (value r) = street_names text /\
     forall i name,
       nth_error (street_names text) i = Some name ->
       nth_error (value r) i
       = Some (match nth_error (street_types text) i with
               | Some sigla => sigla
               | None => "CL"
               end, name)).
Proof.
  cbv zeta. rewrite discover_streets_value.
  destruct (value (fetch_url _ default_retries w)) as [text|].
  - destruct (street_names text) as [|name names] eqn:Hn.
    + split; [discriminate|]. split; [reflexivity|].
      split; [reflexivity|].
      intros t Ht Hne. inversion Ht; subst t. congruence.
    + split; [discriminate|]. split; [discriminate|].
      split.
      * intros t Ht He. inversion Ht; subst t. congruence.
      * intros t Ht _. inversion Ht; subst t. rewrite Hn.
        split; [apply pair_streets_names|].
        intros i nm Hi. rewrite pair_streets_nth, Hi. reflexivity.
  - split; [discriminate|]. split; [reflexivity|].
    split; intros t Ht; discriminate.
Qed.

(** On the scripted registry: the street of ALMOROX is found with its type,
    and a municipality that cannot be reached gives the fallback entry. *)
Lemma discover_streets_nonempty_witness :
  nth_error
    (value (discover_streets (RT := demo) "TOLEDO" "ALMOROX" "REAL" 0%nat)) 0
  = Some ("CL", "REAL")
  /\ value (discover_streets (RT := demo) "MADRID" "NOWHERE" "MAYOR" 0%nat)
     = [("CL", "MAYOR")].
Proof.
  split.
  - destruct (discover_streets_nonempty (RT := demo)
                "TOLEDO" "ALMOROX" "REAL" 0%nat) as (_ & _ & _ & H).
    destruct (H "<calle><dir><tv>CL</tv><nv>REAL</nv></dir></calle>")
      as [_ Hnth].
    + reflexivity.
    + discriminate.
    + apply (Hnth 0%nat "REAL"). reflexivity.
  - destruct (discover_streets_nonempty (RT := demo)
                "MADRID" "NOWHERE" "MAYOR" 0%nat) as (_ & H & _).
    apply H. reflexivity.
Defined.

(** ** get_plot_surface *)

Section PlotFacts.
Context {RT : Runtime}.
Variable cadastral_ref : string.

Lemma get_plot_surface_no_codes del_code mun_code w :
  truthy del_code = false \/ truthy mun_code = false ->
  get_plot_surface cadastral_ref del_code mun_code w = (None, [], w).
Proof.
  unfold get_plot_surface.
  destruct del_code as [[|c s]|], mun_code as [[|c' s']|];
    cbn; intros [H|H]; try discriminate; reflexivity.
Qed.

Lemma get_plot_surface_run del_code mun_code w :
  let url := sede_url cadastral_ref del_code mun_code in
  let r := get_plot_surface cadastral_ref (Some del_code) (Some mun_code) w in
  del_code <> "" -> mun_code <> "" ->
  trace r = trace (fetch_url url default_retries w) /\
  world_after r = world_after (fetch_url url default_retries w) /\
  value r
  = match value (fetch_url url default_retries w) with
    | Some html =>
        match re_search re_superficie html with
        | Some g =>
            match int (remove_char "." g) with
            | Some result => if result >? 0 then Some result else None
            | None => None
            end
        | None => None
        end
    | None => None
    end.
Proof.
  cbv zeta. intros Hd Hm. unfold get_plot_surface.
  destruct del_code as [|c s]; [congruence|].
  destruct mun_code as [|c' s']; [congruence|].
  set (url := sede_url cadastral_ref (String c s) (String c' s')).
  rewrite trace_bind, world_bind, value_bind.
  destruct (value (fetch_url url default_retries w)) as [[|h html]|];
    try (split; [apply app_nil_r|split; reflexivity]).
  destruct (re_search re_superficie (String h html)) as [g|];
    try (split; [apply app_nil_r|split; reflexivity]).
  destruct (int (remove_char "." g)) as [n|];
    try (split; [apply app_nil_r|split; reflexivity]).
  destruct (n >? 0); split; try apply app_nil_r; split; reflexivity.
Qed.

Lemma calls_get_plot_surface del_code mun_code w :
  calls (trace (get_plot_surface cadastral_ref del_code mun_code w))
  = if (truthy del_code && truthy mun_code)%bool
    then [sede_url cadastral_ref (group_or_empty del_code)
            (group_or_empty mun_code)]
    else [].
Proof.
  destruct (truthy del_code) eqn:Hd; cbn [andb].
  2:{ rewrite get_plot_surface_no_codes by auto. auto. }
  destruct (truthy mun_code) eqn:Hm.
  2:{ rewrite get_plot_surface_no_codes by auto. auto. }
  destruct del_code as [d|]; [|discriminate].
  destruct mun_code as [m|]; [|discriminate].
  assert (Hd' : d <> "") by (intros ->; discriminate).
  assert (Hm' : m <> "") by (intros ->; discriminate).
  destruct (get_plot_surface_run d m w Hd' Hm') as (-> & _).
  apply calls_fetch_url.
Qed.

Lemma urls_get_plot_surface del_code mun_code w :
  Forall (fun u => is_sede u = true)
    (urls (trace (get_plot_surface cadastral_ref del_code mun_code w))).
Proof.
  destruct (truthy del_code) eqn:Hd.
  2:{ rewrite get_plot_surface_no_codes by auto. constructor. }
  destruct (truthy mun_code) eqn:Hm.
  2:{ rewrite get_plot_surface_no_codes by auto. constructor. }
  destruct del_code as [d|]; [|discriminate].
  destruct mun_code as [m|]; [|discriminate].
  assert (Hd' : d <> "") by (intros ->; discriminate).
  assert (Hm' : m <> "") by (intros ->; discriminate).
  destruct (get_plot_surface_run d m w Hd' Hm') as (-> & _).
  eapply Forall_impl; [|apply urls_fetch_url].
    intros u <-. reflexivity.
Qed.

Lemma network_get_plot_surface del_code mun_code w :
  forallb is_network
    (trace (get_plot_surface cadastral_ref del_code mun_code w)) = true.
Proof.
  destruct (truthy del_code) eqn:Hd.
  2:{ rewrite get_plot_surface_no_codes by auto. auto. }
  destruct (truthy mun_code) eqn:Hm.
  2:{ rewrite get_plot_surface_no_codes by auto. auto. }
  destruct del_code as [d|]; [|discriminate].
  destruct mun_code as [m|]; [|discriminate].
  assert (Hd' : d <> "") by (intros ->; discriminate).
  assert (Hm' : m <> "") by (intros ->; discriminate).
  destruct (get_plot_surface_run d m w Hd' Hm') as (-> & _).
  apply network_fetch_url.
Qed.
End PlotFacts.



(** ** Reading a trace: distribution over concatenation *)

Lemma calls_app t1 t2 : calls (t1 ++ t2) = (calls t1 ++ calls t2)%list.
Proof. apply flat_map_app. Qed.

Lemma urls_app t1 t2 : urls (t1 ++ t2) = (urls t1 ++ urls t2)%list.
Proof. apply flat_map_app. Qed.

Lemma rows_app t1 t2 : rows (t1 ++ t2) = (rows t1 ++ rows t2)%list.
Proof. apply flat_map_app. Qed.

Lemma opened_app t1 t2 : opened (t1 ++ t2) = (opened t1 ++ opened t2)%list.
Proof. apply flat_map_app. Qed.

Lemma network_no_rows tr : forallb is_network tr = true -> rows tr = [].
Proof.
  induction tr as [|e tr IH]; [reflexivity|].
  cbn. destruct e; cbn; try discriminate; auto.
Qed.

Lemma network_no_opened tr : forallb is_network tr = true -> opened tr = [].
Proof.
  induction tr as [|e tr IH]; [reflexivity|].
  cbn. destruct e; cbn; try discriminate; auto.
Qed.

(** ** One street *)

Section ScanFacts.
Context {RT : Runtime}.
Variable args : Args.t.
Variables province municipality : string.
Variables del_code mun_code : option string.
Variables street_type street_name : string.

Let T := Args.consecutive_misses args.
Let probe (num : Z) : string :=
  dnploc_url province municipality num street_name street_type.
Let viewer (p : property) : string :=
  sede_url (referencia_catastral (api p)) (group_or_empty del_code)
    (group_or_empty mun_code).
Let plots : bool :=
  (negb (Args.no_plot_surface args) && truthy del_code && truthy mun_code)%bool.
Let run := scan_run args province municipality del_code mun_code
             street_type street_name.

(** *** Step 4 *)

Lemma plot_cell_trace prop w :
  trace (plot_cell args del_code mun_code prop w)
  = if Args.no_plot_surface args then []
    else trace (get_plot_surface (referencia_catastral prop)
                  del_code mun_code w).
Proof.
  unfold plot_cell. destruct (Args.no_plot_surface args); cbn [negb].
  - reflexivity.
  - rewrite trace_bind. apply app_nil_r.
Qed.

Lemma calls_plot_cell prop w :
  calls (trace (plot_cell args del_code mun_code prop w))
  = if plots
    then [sede_url (referencia_catastral prop) (group_or_empty del_code)
            (group_or_empty mun_code)]
    else [].
Proof.
  rewrite plot_cell_trace. unfold plots.
  destruct (Args.no_plot_surface args); cbn [negb andb]; [reflexivity|].
  apply calls_get_plot_surface.
Qed.

Lemma urls_plot_cell prop w :
  Forall (fun u => is_sede u = true)
    (urls (trace (plot_cell args del_code mun_code prop w))).
Proof.
  rewrite plot_cell_trace.
  destruct (Args.no_plot_surface args); [constructor|].
  apply urls_get_plot_surface.
Qed.

Lemma network_plot_cell prop w :
  forallb is_network (trace (plot_cell args del_code mun_code prop w)) = true.
Proof.
  rewrite plot_cell_trace.
  destruct (Args.no_plot_surface args); [reflexivity|].
  apply network_get_plot_surface.
Qed.

(** *** The loop and its relation *)

Lemma scan_numbers_run nums : forall st w,
  exists log,
    run nums st w log
      (value (scan_numbers args province municipality del_code mun_code
                street_type street_name nums st w))
      (trace (scan_numbers args province municipality del_code mun_code
                street_type street_name nums st w))
      (world_after (scan_numbers args province municipality del_code
                      mun_code street_type street_name nums st w)).
Proof.
  induction nums as [|num rest IH]; intros st w.
  - exists []. constructor.
  - cbn [scan_numbers]. rewrite bind_run.
    destruct (get_property_from_api province municipality num street_name
                street_type w) as [[[prop|] tp] w1] eqn:E;
      cbn [value trace world_after fst snd].
    + rewrite bind_run.
      destruct (plot_cell args del_code mun_code prop w1)
        as [[plot tc] w2] eqn:Ec.
      cbn [value trace world_after fst snd].
      rewrite bind_run. cbn [sleep emit value trace world_after fst snd].
      destruct (IH (found st {| api := prop; plot_surface_m2 := plot |}) w2)
        as (log & Hlog).
      eexists. eapply run_hit; eauto.
    + destruct (consecutive_misses st + 1 >? T) eqn:Hc; unfold T in Hc.
      * rewrite Hc. cbn [ret value trace world_after fst snd].
        rewrite app_nil_r. eexists. eapply run_break; eauto. lia.
      * rewrite Hc. destruct (IH (missed st) w1) as (log & Hlog).
        eexists. eapply run_miss; eauto. lia.
Qed.

Lemma run_prefix nums st w log st' tr w' :
  run nums st w log st' tr w' ->
  map fst log = firstn (List.length log) nums.
Proof.
  induction 1; cbn; try reflexivity; f_equal; auto.
Qed.

Lemma run_length nums st w log st' tr w' :
  run nums st w log st' tr w' -> (List.length log <= List.length nums)%nat.
Proof. induction 1; cbn; lia. Qed.

Lemma run_properties nums st w log st' tr w' :
  run nums st w log st' tr w' ->
  properties st' = (properties st ++ hits log)%list /\
  found_in_street st' = found_in_street st + Z.of_nat (List.length (hits log)).
Proof.
  induction 1; cbn [hits flat_map snd app List.length].
  - rewrite app_nil_r. split; [reflexivity|lia].
  - rewrite app_nil_r. cbn. split; [reflexivity|lia].
  - exact IHscan_run.
  - destruct IHscan_run as [Hp Hf]. fold (hits log).
    rewrite Hp, Hf. cbn [found properties found_in_street].
    rewrite <- app_assoc. split; [reflexivity|]. cbn [List.length]. lia.
Qed.

Lemma run_counter nums st w log st' tr w' :
  run nums st w log st' tr w' ->
  consecutive_misses st' = counter_after (consecutive_misses st) log.
Proof. induction 1; cbn; auto. Qed.

(** A hit is stored with the number it was found at and the name of the
    street scanned. *)
Lemma run_hits nums st w log st' tr w' :
  run nums st w log st' tr w' ->
  Forall (fun it => forall p, snd it = Some p ->
            number (api p) = fst it /\
            street (api p) = street_type ++ " " ++ street_name) log.
Proof.
  induction 1; constructor; auto; try (cbn; intros; discriminate).
  cbn. intros p Hp. inversion Hp; subst p. unfold stored. cbn [api].
  eapply get_property_some. rewrite H. reflexivity.
Qed.

(** The comparison that ends the scan: once a miss has taken the counter
    above the threshold, no iteration follows. *)
Lemma run_stop nums st w log st' tr w' :
  run nums st w log st' tr w' ->
  forall log1 it log2,
    log = (log1 ++ it :: log2)%list -> is_miss it ->
    T < counter_after (consecutive_misses st) (log1 ++ [it]) ->
    log2 = [].
Proof.
  unfold is_miss.
  induction 1; intros log1 it log2 Hlog Hmiss Hc.
  - destruct log1; discriminate.
  - destruct log1 as [|x log1]; [now inversion Hlog|].
    inversion Hlog. destruct log1; discriminate.
  - destruct log1 as [|x log1].
    + inversion Hlog; subst. cbn in Hc. unfold T in Hc. lia.
    + inversion Hlog; subst. eapply IHscan_run; eauto.
  - destruct log1 as [|x log1].
    + inversion Hlog; subst. discriminate.
    + inversion Hlog; subst. eapply IHscan_run; eauto.
Qed.

(** A scan cut before one of its iterations: the loop on the numbers done
    so far, then the loop on the numbers left, from where the first ended. *)
Lemma run_split nums st w log st' tr w' :
  run nums st w log st' tr w' ->
  forall log1 log2,
    log = (log1 ++ log2)%list -> log2 <> [] ->
    exists st1 tr1 w1 tr2,
      run (firstn (List.length log1) nums) st w log1 st1 tr1 w1 /\
      run (skipn (List.length log1) nums) st1 w1 log2 st' tr2 w' /\
      tr = (tr1 ++ tr2)%list.
Proof.
  induction 1; intros log1 log2 Hlog Hne.
  - destruct log1; [cbn in Hlog; congruence|discriminate].
  - destruct log1 as [|x log1].
    + cbn in Hlog. subst log2. exists st, [], w, tp.
      split; [constructor|]. split; [now constructor|reflexivity].
    + exfalso. apply (f_equal (@List.length _)) in Hlog.
      cbn [List.length app] in Hlog. rewrite length_app in Hlog.
      destruct log2; [congruence|cbn [List.length] in Hlog; lia].
  - destruct log1 as [|x log1].
    + cbn in Hlog. subst log2. exists st, [], w, (tp ++ tr)%list.
      split; [constructor|]. split; [|reflexivity].
      eapply run_miss; eauto.
    + inversion Hlog; subst x log.
      destruct (IHscan_run log1 log2 eq_refl Hne)
        as (st1 & tr1 & w2 & tr2 & Hr1 & Hr2 & ->).
      exists st1, (tp ++ tr1)%list, w2, tr2.
      split; [eapply run_miss; eauto|]. split; [exact Hr2|].
      now rewrite app_assoc.
  - destruct log1 as [|x log1].
    + cbn in Hlog. subst log2.
      exists st, [], w, (tp ++ tc ++ EvSleep 300 :: tr)%list.
      split; [constructor|]. split; [|reflexivity].
      eapply run_hit; eauto.
    + inversion Hlog; subst x log.
      destruct (IHscan_run log1 log2 eq_refl Hne)
        as (st1 & tr1 & w3 & tr2 & Hr1 & Hr2 & ->).
      exists st1, (tp ++ tc ++ EvSleep 300 :: tr1)%list, w3, tr2.
      split; [eapply run_hit; eauto|]. split; [exact Hr2|].
      rewrite <- !app_assoc. reflexivity.
Qed.

(** The scan of a street ends early for no other reason. *)
Lemma run_early nums st w log st' tr w' :
  run nums st w log st' tr w' ->
  (List.length log < List.length nums)%nat ->
  T < consecutive_misses st' /\
  exists log1 num, log = (log1 ++ [(num, None)])%list.
Proof.
  induction 1; cbn [List.length]; intros Hlt.
  - lia.
  - split; [cbn; unfold T; lia|]. exists [], num. reflexivity.
  - destruct IHscan_run as (Hc & log1 & n & ->); [lia|].
    split; [exact Hc|]. exists ((num, None) :: log1), n. reflexivity.
  - destruct IHscan_run as (Hc & log1 & n & ->); [lia|].
    split; [exact Hc|]. exists ((num, Some stored) :: log1), n. reflexivity.
Qed.

(** *** What the street costs in requests *)

Lemma probe_trace num w r tp w1 :
  get_property_from_api province municipality num street_name street_type w
    = (r, tp, w1) ->
  calls tp = [probe num] /\ Forall (eq (probe num)) (urls tp) /\
  forallb is_network tp = true.
Proof.
  intros H. change tp with (trace (r, tp, w1)). rewrite <- H.
  unfold probe.
  split; [apply calls_get_property|].
  split; [apply urls_get_property|apply network_get_property].
Qed.

Lemma plot_trace prop w plot tc w2 :
  plot_cell args del_code mun_code prop w = (plot, tc, w2) ->
  calls tc = (if plots then [viewer {| api := prop; plot_surface_m2 := plot |}]
              else []) /\
  Forall (fun u => is_sede u = true) (urls tc) /\
  forallb is_network tc = true.
Proof.
  intros H. change tc with (trace (plot, tc, w2)). rewrite <- H.
  unfold viewer. cbn [api].
  split; [apply calls_plot_cell|].
  split; [apply urls_plot_cell|apply network_plot_cell].
Qed.

Lemma probe_is_probe num : is_probe (probe num) = true.
Proof. reflexivity. Qed.

Lemma probe_not_sede num : is_sede (probe num) = false.
Proof. reflexivity. Qed.

Lemma viewer_is_sede p : is_sede (viewer p) = true.
Proof. reflexivity. Qed.

Lemma viewer_not_probe p : is_probe (viewer p) = false.
Proof. reflexivity. Qed.

Lemma run_probes nums st w log st' tr w' :
  run nums st w log st' tr w' ->
  filter is_probe (calls tr) = map probe (map fst log).
Proof.
  induction 1; cbn [map fst].
  - reflexivity.
  - apply probe_trace in H. destruct H as (-> & _). cbn [filter].
    now rewrite probe_is_probe.
  - apply probe_trace in H. destruct H as (Hc & _).
    rewrite calls_app, filter_app, IHscan_run, Hc. cbn [filter].
    now rewrite probe_is_probe.
  - apply probe_trace in H. destruct H as (Hc & _).
    apply plot_trace in H0. destruct H0 as (Hv & _).
    rewrite !calls_app, !filter_app, Hc, Hv.
    cbn [filter]. rewrite probe_is_probe.
    change (calls (EvSleep 300 :: tr)) with (calls tr).
    rewrite IHscan_run.
    destruct plots; cbn [filter];
      [rewrite viewer_not_probe|]; reflexivity.
Qed.

Lemma run_viewers nums st w log st' tr w' :
  run nums st w log st' tr w' ->
  filter is_sede (calls tr) = if plots then map viewer (hits log) else [].
Proof.
  induction 1; cbn [hits flat_map snd map app].
  - now destruct plots.
  - apply probe_trace in H. destruct H as (-> & _). cbn [filter].
    rewrite probe_not_sede. now destruct plots.
  - apply probe_trace in H. destruct H as (Hc & _).
    rewrite calls_app, filter_app, IHscan_run, Hc. cbn [filter].
    now rewrite probe_not_sede.
  - apply probe_trace in H. destruct H as (Hc & _).
    apply plot_trace in H0. destruct H0 as (Hv & _).
    rewrite !calls_app, !filter_app, Hc, Hv.
    cbn [filter]. rewrite probe_not_sede.
    change (calls (EvSleep 300 :: tr)) with (calls tr).
    rewrite IHscan_run. fold (hits log).
    destruct plots; cbn [filter app map];
      [rewrite viewer_is_sede|]; reflexivity.
Qed.

Lemma run_calls nums st w log st' tr w' :
  run nums st w log st' tr w' ->
  calls tr
  = flat_map (iteration_calls args province municipality del_code mun_code
                street_type street_name) log.
Proof.
  induction 1; cbn [flat_map iteration_calls fst snd app].
  - reflexivity.
  - apply probe_trace in H. destruct H as (-> & _). reflexivity.
  - apply probe_trace in H. destruct H as (Hc & _).
    rewrite calls_app, IHscan_run, Hc. reflexivity.
  - apply probe_trace in H. destruct H as (Hc & _).
    apply plot_trace in H0. destruct H0 as (Hv & _).
    rewrite !calls_app, Hc, Hv.
    change (calls (EvSleep 300 :: tr)) with (calls tr).
    rewrite IHscan_run.
    unfold plots, viewer, plots_enabled, viewer_url, stored.
    destruct (negb (Args.no_plot_surface args) && truthy del_code
              && truthy mun_code)%bool; reflexivity.
Qed.

Lemma run_urls nums st w log st' tr w' :
  run nums st w log st' tr w' ->
  Forall (fun u => is_probe u = true \/ is_sede u = true) (urls tr).
Proof.
  assert (Hp : forall num w0 r tp w1,
    get_property_from_api province municipality num street_name
      street_type w0 = (r, tp, w1) ->
    Forall (fun u => is_probe u = true \/ is_sede u = true) (urls tp)).
  { intros num w0 r tp w1 H. apply probe_trace in H.
    destruct H as (_ & Hu & _). eapply Forall_impl; [|exact Hu].
    intros u <-. left. reflexivity. }
  induction 1.
  - constructor.
  - eapply Hp; eauto.
  - rewrite urls_app. apply Forall_app. split; [eapply Hp; eauto|].
    exact IHscan_run.
  - rewrite !urls_app. apply Forall_app. split; [eapply Hp; eauto|].
    apply Forall_app. split; [|exact IHscan_run].
    apply plot_trace in H0. destruct H0 as (_ & Hu & _).
    eapply Forall_impl; [|exact Hu]. intros u Hs. now right.
Qed.

Lemma run_network nums st w log st' tr w' :
  run nums st w log st' tr w' -> forallb is_network tr = true.
Proof.
  induction 1.
  - reflexivity.
  - apply probe_trace in H. tauto.
  - apply probe_trace in H. destruct H as (_ & _ & Hn).
    now rewrite forallb_app, IHscan_run, Hn.
  - apply probe_trace in H. destruct H as (_ & _ & Hn).
    apply plot_trace in H0. destruct H0 as (_ & _ & Hn').
    rewrite !forallb_app. cbn [forallb is_network andb].
    now rewrite IHscan_run, Hn, Hn'.
Qed.
End ScanFacts.

(** ** range *)

Lemma range_length a b : List.length (range a b) = Z.to_nat (b - a).
Proof. unfold range. now rewrite length_map, length_seq. Qed.


Lemma firstn_seq_le k : forall start n,
  (k <= n)%nat -> firstn k (seq start n) = seq start k.
Proof.
  induction k as [|k IH]; intros start n Hk; [reflexivity|].
  destruct n as [|n]; [lia|]. cbn. f_equal. apply IH. lia.
Qed.

Lemma firstn_range a b k :
  (k <= List.length (range a b))%nat ->
  firstn k (range a b) = range a (a + Z.of_nat k).
Proof.
  rewrite range_length. intros Hk. unfold range.
  rewrite firstn_map, firstn_seq_le by lia. f_equal. f_equal. lia.
Qed.

Lemma range_cons a b : a < b -> range a b = a :: range (a + 1) b.
Proof.
  intros H. unfold range.
  replace (Z.to_nat (b - a)) with (S (Z.to_nat (b - (a + 1)))) by lia.
  cbn [seq map]. f_equal; [lia|].
  rewrite <- seq_shift, map_map. apply map_ext. intros i. lia.
Qed.

Lemma skipn_range k : forall a b,
  (k <= List.length (range a b))%nat ->
  skipn k (range a b) = range (a + Z.of_nat k) b.
Proof.
  induction k as [|k IH]; intros a b Hk.
  - cbn. f_equal. lia.
  - rewrite range_length in Hk. rewrite range_cons by lia. cbn [skipn].
    rewrite IH by (rewrite range_length; lia). f_equal. lia.
Qed.

Lemma hits_in log p : In p (hits log) <-> exists num, In (num, Some p) log.
Proof.
  unfold hits. rewrite in_flat_map. split.
  - intros ([num [q|]] & Hin & Hp); cbn in Hp; [|tauto].
    destruct Hp as [<-|[]]. eauto.
  - intros (num & Hin). exists (num, Some p). split; [exact Hin|now left].
Qed.

Lemma counter_after_snoc c log it :
  counter_after c (log ++ [it])
  = match snd it with None => counter_after c log + 1 | Some _ => 0 end.
Proof. unfold counter_after. now rewrite fold_left_app. Qed.

(** ** The scan of one street, as a whole *)

Section StreetScan.
Context {RT : Runtime}.
Variable args : Args.t.
Variables province municipality : string.
Variables del_code mun_code : option string.
Variables street_type street_name : string.

Lemma scan_street_log props w :
  let r := scan_street args province municipality del_code mun_code
             street_type street_name props w in
  exists log,
    scan_run args province municipality del_code mun_code
      street_type street_name
      (range 1 (Args.max_number args + 1))
      {| consecutive_misses := 0; found_in_street := 0;
         properties := props |}
      w log (value r) (trace r) (world_after r) /\
    map fst log = range 1 (1 + Z.of_nat (List.length log)) /\
    Z.of_nat (List.length log) <= Z.max 0 (Args.max_number args).
Proof.
  cbv zeta. unfold scan_street.
  destruct (scan_numbers_run args province municipality del_code mun_code
              street_type street_name
              (range 1 (Args.max_number args + 1))
              {| consecutive_misses := 0; found_in_street := 0;
                 properties := props |} w) as (log & Hrun).
  exists log. split; [exact Hrun|].
  pose proof (run_length _ _ _ _ _ _ _ _ _ _ _ _ _ _ Hrun) as Hlen.
  split.
  - rewrite (run_prefix _ _ _ _ _ _ _ _ _ _ _ _ _ _ Hrun).
    now apply firstn_range.
  - rewrite range_length in Hlen. lia.
Qed.
End StreetScan.

(** C1.  The scan of a street is a sequence of iterations on the numbers
    1, 2, ... in order, each a miss ([get_property_from_api] returned [None])
    or a hit (the property was appended to [properties]).  The counter
    [consecutive_misses] starts at zero, goes up by one on a miss and back to
    zero on a hit: this is its value before every iteration and at the end.
    No iteration follows a miss that takes the counter above
    [--consecutive-misses]; for a threshold that is not negative no
    iteration follows any point at which the counter is above it.  A scan
    that ends before [--max-number] ends on such a miss. *)
Theorem scan_stops_after_misses {RT : Runtime} (args : Args.t)
    (province municipality : string) (del_code mun_code : option string)
    (street_type street_name : string) (props : list property) (w : World) :
  let T := Args.consecutive_misses args in
  let r := scan_street args province municipality del_code mun_code
             street_type street_name props w in
  exists log : list iteration,
    scan_run args province municipality del_code mun_code
      street_type street_name (range 1 (Args.max_number args + 1))
      {| consecutive_misses := 0; found_in_street := 0; properties := props |}
      w log (value r) (trace r) (world_after r) /\
    map fst log = range 1 (1 + Z.of_nat (List.length log)) /\
    filter is_probe (calls (trace r))
    = map (fun num => dnploc_url province municipality num
                        street_name street_type) (map fst log) /\
    properties (value r) = (props ++ hits log)%list /\
    consecutive_misses (value r) = counter_after 0 log /\
    (forall log1 log2,
       log = (log1 ++ log2)%list -> log2 <> [] ->
       exists st1 tr1 w1 tr2,
         scan_run args province municipality del_code mun_code
           street_type street_name
           (range 1 (1 + Z.of_nat (List.length log1)))
           {| consecutive_misses := 0; found_in_street := 0;
              properties := props |}
           w log1 st1 tr1 w1 /\
         consecutive_misses st1 = counter_after 0 log1 /\
         scan_run args province municipality del_code mun_code
           street_type street_name
           (range (1 + Z.of_nat (List.length log1)) (Args.max_number args + 1))
           st1 w1 log2 (value r) tr2 (world_after r) /\
         trace r = (tr1 ++ tr2)%list) /\
    (forall log1 it log2,
       log = (log1 ++ it :: log2)%list -> is_miss it ->
       T < counter_after 0 (log1 ++ [it]) -> log2 = []) /\
    (0 <= T ->
     forall log1 log2,
       log = (log1 ++ log2)%list -> T < counter_after 0 log1 -> log2 = []) /\
    (Z.of_nat (List.length log) < Args.max_number args ->
     T < consecutive_misses (value r) /\
     exists log1 num, log = (log1 ++ [(num, None)])%list).
Proof.
  cbv zeta.
  destruct (scan_street_log args province municipality del_code mun_code
              street_type street_name props w) as (log & Hrun & Hnums & Hlen).
  exists log. split; [exact Hrun|]. split; [exact Hnums|].
  split; [exact (run_probes _ _ _ _ _ _ _ _ _ _ _ _ _ _ Hrun)|].
  split; [exact (proj1 (run_properties _ _ _ _ _ _ _ _ _ _ _ _ _ _ Hrun))|].
  split; [exact (run_counter _ _ _ _ _ _ _ _ _ _ _ _ _ _ Hrun)|].
  split.
  { intros log1 log2 Hlog Hne.
    destruct (run_split _ _ _ _ _ _ _ _ _ _ _ _ _ _ Hrun log1 log2 Hlog Hne)
      as (st1 & tr1 & w1 & tr2 & Hr1 & Hr2 & Htr).
    assert (Hk : (List.length log1 <= List.length
                    (range 1 (Args.max_number args + 1)))%nat).
    { pose proof (run_length _ _ _ _ _ _ _ _ _ _ _ _ _ _ Hrun) as Hl.
      rewrite Hlog, length_app in Hl. lia. }
    rewrite firstn_range in Hr1 by exact Hk.
    rewrite skipn_range in Hr2 by exact Hk.
    exists st1, tr1, w1, tr2. split; [exact Hr1|].
    split; [exact (run_counter _ _ _ _ _ _ _ _ _ _ _ _ _ _ Hr1)|].
    split; [exact Hr2|exact Htr]. }
  assert (Hstop : forall log1 it log2,
    log = (log1 ++ it :: log2)%list -> is_miss it ->
    Args.consecutive_misses args < counter_after 0 (log1 ++ [it]) ->
    log2 = []).
  { intros log1 it log2 Hlog Hmiss Hc.
    exact (run_stop _ _ _ _ _ _ _ _ _ _ _ _ _ _ Hrun log1 it log2
             Hlog Hmiss Hc). }
  split; [exact Hstop|]. split.
  - intros HT log1 log2 Hlog Hc.
    destruct (rev log1) as [|it l] eqn:Hrev.
    + apply (f_equal (@rev _)) in Hrev. rewrite rev_involutive in Hrev.
      subst log1. cbn in Hc. lia.
    + apply (f_equal (@rev _)) in Hrev. rewrite rev_involutive in Hrev.
      cbn in Hrev. subst log1.
      destruct log2 as [|it2 log2]; [reflexivity|].
      rewrite counter_after_snoc in Hc.
      destruct (snd it) eqn:Hit; [lia|].
      rewrite <- app_assoc in Hlog. cbn in Hlog.
      assert (it2 :: log2 = []); [|discriminate].
      eapply (Hstop (rev l) it (it2 :: log2)); eauto.
      rewrite counter_after_snoc, Hit. exact Hc.
  - intros Hearly.
    apply (run_early _ _ _ _ _ _ _ _ _ _ _ _ _ _ Hrun).
    rewrite range_length. lia.
Qed.

(** On the scripted registry, with a threshold of one miss and numbers up to
    8: the misses at 5 and 6 end the scan of CL REAL. *)
Lemma scan_stops_after_misses_witness :
  1 < consecutive_misses
        (value (scan_street (RT := demo) (demo_args false) "TOLEDO" "ALMOROX"
                  (Some "45") (Some "13") "CL" "REAL" [] 0%nat)).
Proof.
  destruct (scan_stops_after_misses (RT := demo) (demo_args false)
              "TOLEDO" "ALMOROX" (Some "45") (Some "13") "CL" "REAL" []
              0%nat) as (log & _ & _ & Hprobes & _ & _ & _ & _ & _ & Hearly).
  apply Hearly.
  apply (f_equal (@List.length _)) in Hprobes.
  rewrite !length_map in Hprobes. unfold iteration in *.
  rewrite <- Hprobes. vm_compute. reflexivity.
Defined.

(** ** All the streets *)

Section StreetsFacts.
Context {RT : Runtime}.
Variable args : Args.t.
Variables province municipality : string.
Variables del_code mun_code : option string.

Lemma scan_street_summary street_type street_name props w :
  let r := scan_street args province municipality del_code mun_code
             street_type street_name props w in
  exists log,
    street_log (Args.max_number args) (street_type, street_name) log /\
    properties (value r) = (props ++ hits log)%list /\
    filter is_probe (calls (trace r))
    = street_probes province municipality ((street_type, street_name), log) /\
    filter is_sede (calls (trace r))
    = (if plots_enabled args del_code mun_code
       then map (viewer_url del_code mun_code) (hits log) else []) /\
    forallb is_network (trace r) = true /\
    Forall (fun u => is_probe u = true \/ is_sede u = true) (urls (trace r)) /\
    calls (trace r)
    = street_calls args province municipality del_code mun_code
        ((street_type, street_name), log).
Proof.
  cbv zeta.
  destruct (scan_street_log args province municipality del_code mun_code
              street_type street_name props w) as (log & Hrun & Hnums & Hlen).
  exists log. split; [|split; [|split; [|split; [|split; [|split]]]]].
  - split; [exact Hnums|]. split; [exact Hlen|].
    exact (run_hits _ _ _ _ _ _ _ _ _ _ _ _ _ _ Hrun).
  - exact (proj1 (run_properties _ _ _ _ _ _ _ _ _ _ _ _ _ _ Hrun)).
  - exact (run_probes _ _ _ _ _ _ _ _ _ _ _ _ _ _ Hrun).
  - exact (run_viewers _ _ _ _ _ _ _ _ _ _ _ _ _ _ Hrun).
  - exact (run_network _ _ _ _ _ _ _ _ _ _ _ _ _ _ Hrun).
  - exact (run_urls _ _ _ _ _ _ _ _ _ _ _ _ _ _ Hrun).
  - exact (run_calls _ _ _ _ _ _ _ _ _ _ _ _ _ _ Hrun).
Qed.

Lemma scan_streets_summary streets : forall props w,
  let r := scan_streets args province municipality del_code mun_code
             streets props w in
  exists logs,
    Forall2 (street_log (Args.max_number args)) streets logs /\
    value r = (props ++ flat_map hits logs)%list /\
    filter is_probe (calls (trace r))
    = flat_map (street_probes province municipality) (combine streets logs) /\
    filter is_sede (calls (trace r))
    = (if plots_enabled args del_code mun_code
       then map (viewer_url del_code mun_code) (flat_map hits logs)
       else []) /\
    forallb is_network (trace r) = true /\
    Forall (fun u => is_probe u = true \/ is_sede u = true) (urls (trace r)) /\
    calls (trace r)
    = flat_map (street_calls args province municipality del_code mun_code)
        (combine streets logs).
Proof.
  induction streets as [|[street_type street_name] rest IH]; intros props w.
  - exists []. cbn. rewrite app_nil_r.
    repeat split; try constructor. now destruct plots_enabled.
  - cbv zeta. cbn [scan_streets]. rewrite bind_run.
    cbn [value trace world_after fst snd].
    destruct (scan_street_summary street_type street_name props w)
      as (log & Hlog & Hp & Hprobes & Hview & Hnet & Hurls & Hcalls).
    set (r1 := scan_street args province municipality del_code mun_code
                 street_type street_name props w) in *.
    destruct (IH (properties (value r1)) (world_after r1))
      as (logs & Hlogs & Hv & Hprobes' & Hview' & Hnet' & Hurls' & Hcalls').
    exists (log :: logs).
    split; [constructor; assumption|].
    split; [rewrite Hv, Hp; cbn [flat_map]; now rewrite app_assoc|].
    split; [rewrite calls_app, filter_app, Hprobes, Hprobes'; reflexivity|].
    split.
    { rewrite calls_app, filter_app, Hview, Hview'. cbn [flat_map].
      destruct plots_enabled; [now rewrite map_app|reflexivity]. }
    split; [now rewrite forallb_app, Hnet, Hnet'|].
    split; [rewrite urls_app; apply Forall_app; split; assumption|].
    rewrite calls_app, Hcalls, Hcalls'. reflexivity.
Qed.
End StreetsFacts.



(** ** sorted *)

Lemma key_le_tuple p q : key_le p q <-> tuple_le (sort_key p) (sort_key q).
Proof.
  unfold key_le, key_lt, tuple_le, sort_key. cbn [fst snd].
  rewrite String.compare_antisym.
  destruct (String.compare (street (api p)) (street (api q))) eqn:E; cbn.
  - apply String_as_OT.cmp_eq in E. rewrite E. split.
    + intros H. right. split; [reflexivity|]. apply Z.ltb_ge in H. exact H.
    + intros [H|[_ H]]; [|now apply Z.ltb_ge].
      apply String_as_OT.lt_not_eq in H. exfalso. apply H. reflexivity.
  - split; [intros _|reflexivity]. left. now apply String_as_OT.cmp_lt.
  - split; [discriminate|]. intros [H|[H _]].
    + apply String_as_OT.cmp_lt in H. unfold String_as_OT.cmp in H. congruence.
    + apply String_as_OT.cmp_eq in H. unfold String_as_OT.cmp in H. congruence.
Qed.

Lemma tuple_le_trans a b c : tuple_le a b -> tuple_le b c -> tuple_le a c.
Proof.
  unfold tuple_le. intros [H1|[E1 H1]] [H2|[E2 H2]].
  - left. eapply String_as_OT.lt_trans; eauto.
  - left. now rewrite <- E2.
  - left. now rewrite E1.
  - right. split; [congruence|lia].
Qed.

Lemma tuple_le_antisym a b : tuple_le a b -> tuple_le b a -> a = b.
Proof.
  unfold tuple_le. destruct a as [s n], b as [s' n']. cbn.
  intros [H1|[E1 H1]] [H2|[E2 H2]].
  - exfalso. eapply String_as_OT.lt_not_eq;
      [eapply String_as_OT.lt_trans; eauto|reflexivity].
  - exfalso. eapply String_as_OT.lt_not_eq; eauto. now symmetry.
  - exfalso. eapply String_as_OT.lt_not_eq; eauto. now symmetry.
  - f_equal; [assumption|lia].
Qed.

Lemma key_le_trans p q r : key_le p q -> key_le q r -> key_le p r.
Proof. rewrite !key_le_tuple. apply tuple_le_trans. Qed.

Lemma key_lt_le p q : key_lt p q = true -> key_le p q.
Proof.
  unfold key_le, key_lt. rewrite String.compare_antisym.
  destruct (String.compare (street (api q)) (street (api p)));
    cbn; try discriminate; auto.
  intros H. apply Z.ltb_lt in H. apply Z.ltb_ge. lia.
Qed.

Lemma insert_perm p l : Permutation (p :: l) (insert p l).
Proof.
  induction l as [|q l IH]; cbn; [reflexivity|].
  destruct (key_lt q p); [|reflexivity].
  rewrite perm_swap. now constructor.
Qed.

Lemma sorted_perm l : Permutation l (sorted l).
Proof.
  induction l as [|p l IH]; cbn; [constructor|].
  rewrite <- insert_perm. now constructor.
Qed.

Lemma insert_sorted p l :
  StronglySorted key_le l -> StronglySorted key_le (insert p l).
Proof.
  induction 1 as [|q l Hl IH Hq]; cbn.
  - repeat constructor.
  - destruct (key_lt q p) eqn:E.
    + constructor; [exact IH|].
      apply Forall_forall. intros x Hx.
      apply (Permutation_in _ (Permutation_sym (insert_perm p l))) in Hx.
      destruct Hx as [<-|Hx]; [now apply key_lt_le|].
      rewrite Forall_forall in Hq. auto.
    + constructor; [constructor; assumption|].
      constructor; [exact E|].
      eapply Forall_impl; [|exact Hq].
      intros x Hx. eapply key_le_trans; eauto.
Qed.

Lemma sorted_sorted l : StronglySorted key_le (sorted l).
Proof.
  induction l as [|p l IH]; cbn; [constructor|]. now apply insert_sorted.
Qed.

(** Two ascending lists of keys with the same elements are equal. *)
Lemma ascending_unique (l1 : list (string * Z)) : forall l2,
  StronglySorted tuple_le l1 -> StronglySorted tuple_le l2 ->
  Permutation l1 l2 -> l1 = l2.
Proof.
  induction l1 as [|a l1 IH]; intros l2 H1 H2 HP.
  - now apply Permutation_nil in HP.
  - destruct l2 as [|b l2]; [now apply Permutation_sym, Permutation_nil in HP|].
    apply StronglySorted_inv in H1. destruct H1 as [H1 Ha].
    apply StronglySorted_inv in H2. destruct H2 as [H2 Hb].
    rewrite Forall_forall in Ha, Hb.
    assert (a = b) as <-.
    { assert (Hab : In b (a :: l1))
        by (apply (Permutation_in _ (Permutation_sym HP)); now left).
      assert (Hba : In a (b :: l2))
        by (apply (Permutation_in _ HP); now left).
      destruct Hab as [E|Hab]; [exact E|].
      destruct Hba as [E|Hba]; [now symmetry|].
      apply tuple_le_antisym; auto. }
    f_equal. apply IH; auto. eapply Permutation_cons_inv; eauto.
Qed.

Lemma sorted_keys_ascending l :
  StronglySorted tuple_le (map sort_key (sorted l)).
Proof.
  pose proof (sorted_sorted l) as H.
  induction H as [|p l' Hl IH Hp]; cbn; constructor; [exact IH|].
  apply Forall_forall. intros k Hk. apply in_map_iff in Hk.
  destruct Hk as (q & <- & Hq). apply key_le_tuple.
  rewrite Forall_forall in Hp. auto.
Qed.

(** The keys of the sorted list do not depend on the order of its input. *)
Lemma sorted_keys_perm l l' :
  Permutation l l' -> map sort_key (sorted l) = map sort_key (sorted l').
Proof.
  intros HP. apply ascending_unique; try apply sorted_keys_ascending.
  apply Permutation_map.
  rewrite <- (sorted_perm l), <- (sorted_perm l'). exact HP.
Qed.

(** ** The whole run *)

Section MainFacts.
Context {RT : Runtime}.

Lemma lookup_municipality_codes_run province municipality w :
  trace (lookup_municipality_codes province municipality w)
  = trace (fetch_url (municipio_url province municipality) default_retries w).
Proof.
  unfold lookup_municipality_codes. rewrite trace_bind.
  destruct (value (fetch_url _ default_retries w)) as [[|c s]|];
    apply app_nil_r.
Qed.

Lemma lookup_codes_run args w :
  let url := municipio_url (upper (Args.province args))
               (upper (Args.municipality args)) in
  calls (trace (lookup_codes args w))
  = (if Args.no_plot_surface args then [] else [url]) /\
  Forall (eq url) (urls (trace (lookup_codes args w))) /\
  forallb is_network (trace (lookup_codes args w)) = true.
Proof.
  cbv zeta. unfold lookup_codes.
  destruct (Args.no_plot_surface args); cbn [negb].
  - repeat split. constructor.
  - rewrite lookup_municipality_codes_run.
    split; [apply calls_fetch_url|].
    split; [apply urls_fetch_url|apply network_fetch_url].
Qed.

Lemma discover_streets_requests province municipality street_query w :
  let url := via_url province municipality street_query in
  let r := discover_streets province municipality street_query w in
  calls (trace r) = [url] /\ Forall (eq url) (urls (trace r)) /\
  forallb is_network (trace r) = true.
Proof.
  cbv zeta.
  destruct (discover_streets_run province municipality street_query w)
    as [-> _].
  split; [apply calls_fetch_url|].
  split; [apply urls_fetch_url|apply network_fetch_url].
Qed.

Lemma write_rows_trace props : forall w,
  write_rows props w = (tt, map (fun p => EvRow (row p)) props, w).
Proof.
  induction props as [|p props IH]; intros w; [reflexivity|].
  cbn [write_rows]. unfold bind, emit. now rewrite IH.
Qed.

Lemma write_csv_trace output_file props w :
  write_csv output_file props w
  = (tt,
     EvOpen output_file :: EvRow header
       :: map (fun p => EvRow (row p)) (sorted props),
     w).
Proof.
  unfold write_csv, bind, emit. now rewrite write_rows_trace.
Qed.

Lemma rows_of_rows props :
  rows (map (fun p => EvRow (row p)) props) = map row props.
Proof.
  unfold rows. induction props as [|p props IH]; cbn; [|rewrite IH];
    reflexivity.
Qed.

Lemma network_of_rows props :
  opened (map (fun p => EvRow (row p)) props) = [] /\
  urls (map (fun p => EvRow (row p)) props) = [] /\
  calls (map (fun p => EvRow (row p)) props) = [].
Proof.
  unfold opened, urls, calls. induction props as [|p props IH]; cbn; auto.
Qed.

(** The three parts of [collect], each run where the previous one ended. *)
Lemma collect_run args w :
  let province := upper (Args.province args) in
  let municipality := upper (Args.municipality args) in
  let r1 := lookup_codes args w in
  let r2 := discover_streets province municipality
              (upper (Args.street args)) (world_after r1) in
  let r3 := scan_streets args province municipality
              (fst (value r1)) (snd (value r1)) (value r2) []
              (world_after r2) in
  collect args w
  = (value r3, (trace r1 ++ trace r2 ++ trace r3)%list, world_after r3).
Proof.
  cbv zeta. unfold collect. rewrite !bind_run.
  cbn [value trace world_after fst snd]. reflexivity.
Qed.

Lemma main_run args w :
  main args w
  = (tt,
     (trace (collect args w)
      ++ EvOpen (output_file args) :: EvRow header
           :: map (fun p => EvRow (row p))
                (sorted (value (collect args w))))%list,
     world_after (collect args w)).
Proof.
  unfold main. rewrite bind_run, write_csv_trace. reflexivity.
Qed.

Lemma collect_network args w :
  forallb is_network (trace (collect args w)) = true.
Proof.
  rewrite collect_run. cbn [trace fst snd]. rewrite !forallb_app.
  destruct (lookup_codes_run args w) as (_ & _ & ->).
  match goal with
  | |- context [discover_streets ?p ?m ?s ?w0] =>
      destruct (discover_streets_requests p m s w0) as (_ & _ & ->)
  end.
  match goal with
  | |- context [scan_streets ?a ?p ?m ?d ?c ?s [] ?w0] =>
      destruct (scan_streets_summary a p m d c s [] w0)
        as (_ & _ & _ & _ & _ & -> & _)
  end.
  reflexivity.
Qed.
Lemma main_rows args w :
  rows (trace (main args w))
  = header :: map row (sorted (value (collect args w))).
Proof.
  rewrite main_run. cbn [trace fst snd].
  rewrite rows_app, (network_no_rows _ (collect_network args w)). cbn.
  now rewrite rows_of_rows.
Qed.
End MainFacts.

(** C5.  A run writes one file, after everything else: it opens the output
    file once and writes the header of seven columns, then one row for each
    collected property, holding its reference, number, street, built
    surface, plot surface, year and use. *)
Theorem csv_written {RT : Runtime} (args : Args.t) (w : World) :
  let props := value (collect args w) in
  let tr := trace (main args w) in
  tr = (trace (collect args w)
        ++ EvOpen (output_file args)
             :: map EvRow (header :: map row (sorted props)))%list /\
  opened tr = [output_file args] /\
  rows tr = header :: map row (sorted props) /\
  header = [CStr "Referencia Catastral"; CStr "Number"; CStr "Street";
            CStr "Built Surface (m2)"; CStr "Plot Surface (m2)";
            CStr "Year Built"; CStr "Use"] /\
  Permutation (sorted props) props /\
  List.length (rows tr) = S (List.length props) /\
  Forall (fun p =>
            row p = [CStr (referencia_catastral (api p)); CInt (number (api p));
                     CStr (street (api p)); CInt (built_surface_m2 (api p));
                     plot_surface_m2 p; CStr (year (api p));
                     CStr (use (api p))]) props.
Proof.
  cbv zeta. rewrite main_run. cbn [trace fst snd].
  pose proof (collect_network args w) as Hnet.
  split; [cbn [map]; now rewrite map_map|].
  split.
  { rewrite opened_app, (network_no_opened _ Hnet). cbn.
    now rewrite (proj1 (network_of_rows _)). }
  assert (Hrows : rows (trace (collect args w)
                    ++ EvOpen (output_file args) :: EvRow header
                         :: map (fun p => EvRow (row p))
                              (sorted (value (collect args w))))
                  = header :: map row (sorted (value (collect args w)))).
  { rewrite <- main_rows, main_run. reflexivity. }
  split; [exact Hrows|]. split; [reflexivity|].
  split; [apply Permutation_sym, sorted_perm|].
  split.
  - rewrite Hrows. cbn [List.length]. rewrite length_map.
    now rewrite <- (Permutation_length (sorted_perm (value (collect args w)))).
  - apply Forall_forall. reflexivity.
Qed.

(** C10.  The rows of data are those of the collected properties in
    ascending order of the pair (street, number); the keys of the rows
    depend on which properties were found, not on the order they were found
    in. *)
Theorem csv_rows_sorted {RT : Runtime} (args : Args.t) (w : World) :
  (exists l,
     rows (trace (main args w)) = header :: map row l /\
     Permutation l (value (collect args w)) /\
     StronglySorted key_le l /\
     StronglySorted tuple_le (map sort_key l)) /\
  (forall found found',
     Permutation found found' ->
     map sort_key (sorted found) = map sort_key (sorted found')).
Proof.
  split; [|apply sorted_keys_perm].
  exists (sorted (value (collect args w))).
  split; [apply main_rows|].
  split; [apply Permutation_sym, sorted_perm|].
  split; [apply sorted_sorted|apply sorted_keys_ascending].
Qed.

(** Sorting two properties found in either order gives the same keys. *)
Lemma csv_rows_sorted_witness :
  map sort_key (sorted [demo_property 4; demo_property 2])
  = map sort_key (sorted [demo_property 2; demo_property 4]).
Proof.
  apply (proj2 (csv_rows_sorted (RT := demo) (demo_args false) 0%nat)).
  apply perm_swap.
Defined.

(** ** Hosts *)

Lemma prefix_inv p : forall u,
  String.prefix p u = true -> exists rest, u = p ++ rest.
Proof.
  induction p as [|a p IH]; intros u H.
  - exists u. reflexivity.
  - destruct u as [|b u]; [discriminate|]. cbn in H.
    destruct (ascii_dec a b) as [<-|]; [|discriminate].
    destruct (IH u H) as (rest & ->). exists rest. reflexivity.
Qed.

Lemma host_of_api u :
  is_municipio u = true \/ is_via u = true \/ is_probe u = true ->
  host_of u = ovc_host.
Proof.
  intros [H|[H|H]]; apply prefix_inv in H; destruct H as (rest & ->);
    reflexivity.
Qed.

Lemma host_of_sede u : is_sede u = true -> host_of u = sede_host.
Proof.
  intros H. apply prefix_inv in H. destruct H as (rest & ->). reflexivity.
Qed.

(** C7.  Every URL requested in a run is one of the three API queries, built
    on [BASE_API], or the viewer query, built on [SEDE_URL]; the host is that
    of the one or of the other. *)
Theorem two_endpoints {RT : Runtime} (args : Args.t) (w : World) :
  host_of BASE_API = ovc_host /\ host_of SEDE_URL = sede_host /\
  Forall (fun u =>
            ((is_municipio u = true \/ is_via u = true \/ is_probe u = true)
             /\ host_of u = ovc_host) \/
            (is_sede u = true /\ host_of u = sede_host))
    (urls (trace (main args w))).
Proof.
  split; [reflexivity|]. split; [reflexivity|].
  rewrite main_run. cbn [trace fst snd]. rewrite urls_app.
  apply Forall_app. split.
  2:{ change (urls (EvOpen (output_file args) :: EvRow header
                      :: map (fun p => EvRow (row p))
                           (sorted (value (collect args w)))))
        with (urls (map (fun p => EvRow (row p))
                      (sorted (value (collect args w))))).
      rewrite (proj1 (proj2 (network_of_rows _))). constructor. }
  rewrite collect_run. cbn [trace fst snd]. rewrite !urls_app.
  apply Forall_app. split; [|apply Forall_app; split].
  - destruct (lookup_codes_run args w) as (_ & Hu & _).
    eapply Forall_impl; [|exact Hu]. intros u <-. left.
    split; [left; reflexivity|reflexivity].
  - match goal with
    | |- context [discover_streets ?p ?m ?s ?w0] =>
        destruct (discover_streets_requests p m s w0) as (_ & Hu & _)
    end.
    eapply Forall_impl; [|exact Hu]. intros u <-. left.
    split; [right; left; reflexivity|reflexivity].
  - match goal with
    | |- context [scan_streets ?a ?p ?m ?d ?c ?s [] ?w0] =>
        destruct (scan_streets_summary a p m d c s [] w0)
          as (_ & _ & _ & _ & _ & _ & Hu & _)
    end.
    eapply Forall_impl; [|exact Hu]. intros u [H|H].
    + left. split; [auto|]. apply host_of_api. auto.
    + right. split; [exact H|]. now apply host_of_sede.
Qed.

(** C6, as amended.  A run is made of four parts, in this order and each
    done once.  First the municipality codes are looked up, by one call of
    [fetch_url], unless [--no-plot-surface] is given, in which case nothing
    is requested.  Then the streets are discovered, by one call.  Then the
    streets are scanned one after the other in the order of discovery, each
    on the numbers 1, 2, ...; right after the probe of a hit, and nowhere
    else, the viewer page of the property is fetched, by one call, when plot
    surfaces are enabled and both codes were found, and never otherwise.
    Nothing is written during these three parts.  Last the output file is
    opened and the rows are written, and nothing is requested any more. *)
Theorem main_steps_in_order {RT : Runtime} (args : Args.t) (w : World) :
  let province := upper (Args.province args) in
  let municipality := upper (Args.municipality args) in
  let r1 := lookup_codes args w in
  let del_code := fst (value r1) in
  let mun_code := snd (value r1) in
  let r2 := discover_streets province municipality (upper (Args.street args))
              (world_after r1) in
  let r3 := scan_streets args province municipality del_code mun_code
              (value r2) [] (world_after r2) in
  trace (main args w)
  = (trace r1 ++ trace r2 ++ trace r3
     ++ EvOpen (output_file args)
          :: map EvRow (header :: map row (sorted (value r3))))%list /\
  (calls (trace r1)
   = (if Args.no_plot_surface args then []
      else [municipio_url province municipality]) /\
   Forall (eq (municipio_url province municipality)) (urls (trace r1)) /\
   forallb is_network (trace r1) = true) /\
  (calls (trace r2)
   = [via_url province municipality (upper (Args.street args))] /\
   Forall (eq (via_url province municipality (upper (Args.street args))))
     (urls (trace r2)) /\
   forallb is_network (trace r2) = true) /\
  ((exists logs,
      Forall2 (street_log (Args.max_number args)) (value r2) logs /\
      value r3 = flat_map hits logs /\
      calls (trace r3)
      = flat_map (street_calls args province municipality del_code mun_code)
          (combine (value r2) logs)) /\
   filter is_sede (calls (trace r3))
   = (if plots_enabled args del_code mun_code
      then map (viewer_url del_code mun_code) (value r3) else []) /\
   Forall (fun u => is_probe u = true \/ is_sede u = true) (urls (trace r3)) /\
   forallb is_network (trace r3) = true).
Proof.
  cbv zeta. split; [|split; [|split]].
  - rewrite main_run, collect_run. cbn [value trace world_after fst snd map].
    rewrite map_map, <- !app_assoc. reflexivity.
  - apply lookup_codes_run.
  - apply discover_streets_requests.
  - match goal with
    | |- context [scan_streets ?a ?p ?m ?d ?c ?s [] ?w0] =>
        destruct (scan_streets_summary a p m d c s [] w0)
          as (logs & Hlogs & Hv & _ & Hview & Hnet & Hurls & Hcalls)
    end.
    cbv zeta in *. cbn [app] in Hv.
    split; [exists logs; auto|].
    split; [now rewrite Hview, Hv|]. split; assumption.
Qed.

(** With [--no-plot-surface] on the scripted registry, the run starts with
    the discovery of the streets and fetches no viewer page, though it writes
    two rows of data, for the hits at 2 and 4.  Without the flag, on the
    registry that does not know the codes, the lookup is made, and again no
    viewer page is fetched for the two hits.  The order as specified holds in
    neither run. *)
Lemma fixed_order_counterexample :
  (let tr := trace (main (RT := demo) (demo_args true) 0%nat) in
   calls tr
   = via_url "TOLEDO" "ALMOROX" "REAL"
     :: map (fun num => dnploc_url "TOLEDO" "ALMOROX" num "REAL" "CL")
          [1; 2; 3; 4; 5; 6] /\
   List.length (rows tr) = 3%nat /\
   ~ fixed_order_as_specified (RT := demo) (demo_args true) 0%nat) /\
  (let tr := trace (main (RT := demo_without_codes) (demo_args false) 0%nat) in
   calls tr
   = municipio_url "TOLEDO" "ALMOROX" :: via_url "TOLEDO" "ALMOROX" "REAL"
     :: map (fun num => dnploc_url "TOLEDO" "ALMOROX" num "REAL" "CL")
          [1; 2; 3; 4; 5; 6] /\
   List.length (rows tr) = 3%nat /\
   ~ fixed_order_as_specified (RT := demo_without_codes) (demo_args false)
       0%nat).
Proof.
  cbv zeta. split.
  - split; [vm_compute; reflexivity|].
    split; [vm_compute; reflexivity|].
    intros (scan & Hcalls & _). vm_compute in Hcalls. discriminate Hcalls.
  - split; [vm_compute; reflexivity|].
    split; [vm_compute; reflexivity|].
    intros (scan & Hcalls & _ & Hlen). vm_compute in Hcalls.
    inversion Hcalls; subst scan. vm_compute in Hlen. discriminate Hlen.
Qed.

(** Without the flag, on the same registry, it does. *)
Example fixed_order_with_plots :
  fixed_order_as_specified (RT := demo) (demo_args false) 0%nat.
Proof.
  eexists. split; [vm_compute; reflexivity|].
  split; [|vm_compute; reflexivity].
  repeat (constructor; [(left; reflexivity) || (right; reflexivity)|]).
  constructor.
Qed.

(** * Further properties of the script *)

(** ** fetch_url, for any number of tries *)

Section FetchAny.
Context {RT : Runtime}.

Lemma fetch_loop_cases url retries k : forall i w,
  (i + k = retries)%nat ->
  let r := fetch_loop url retries (seq i k) w in
  exists n,
    (n <= k)%nat /\ (n = 0%nat <-> k = 0%nat) /\
    trace r = attempts url i n /\
    match value r with
    | Some body => replies url n w = (repeat Failure (n - 1) ++ [Body body])%list
    | None => n = k /\ replies url n w = repeat Failure n
    end.
Proof.
  induction k as [|k IH]; intros i w Hi; cbv zeta.
  - exists 0%nat. cbn. repeat split; (reflexivity || lia).
  - cbn [seq fetch_loop]. rewrite bind_run.
    destruct (urlopen url w) as [[body|] w1] eqn:E;
      (assert (Hreq : request url i w = (fst (urlopen url w),
                                         [EvRequest url i], w1))
         by (unfold request; now rewrite E));
      rewrite Hreq, E; cbn [value trace world_after fst snd].
    + exists 1%nat. cbn. rewrite E. repeat split; (reflexivity || lia).
    + destruct (i <? retries - 1)%nat eqn:Hlt.
      * apply Nat.ltb_lt in Hlt. rewrite bind_run.
        cbn [sleep emit value trace world_after fst snd].
        destruct (IH (S i) w1 ltac:(lia)) as (n & Hn & Hz & Ht & Hv).
        cbv zeta in Ht, Hv. exists (S n).
        assert (Hpos : (1 <= n)%nat) by (destruct n; [lia|lia]).
        split; [lia|]. split; [split; lia|].
        split.
        { rewrite Ht. destruct n as [|n]; [lia|]. reflexivity. }
        cbn [replies]. rewrite E.
        destruct (value (fetch_loop url retries (seq (S i) k) w1)) as [body|].
        -- rewrite Hv. destruct n as [|n]; [lia|].
           cbn. now rewrite Nat.sub_0_r.
        -- destruct Hv as [-> Hv]. rewrite Hv. split; reflexivity.
      * apply Nat.ltb_ge in Hlt. assert (k = 0%nat) by lia. subst k.
        exists 1%nat. cbn. rewrite E. repeat split; (reflexivity || lia).
Qed.
End FetchAny.

(** X1.  Whatever the number of tries, [fetch_url] makes at most that many
    attempts on the URL, two seconds apart and nothing else, and none at all
    only when the number of tries is zero; every attempt before the last one
    made has failed; it returns the body of the last attempt, or [None] when
    all the tries allowed were made and failed. *)
Theorem fetch_url_any_retries {RT : Runtime} (url : string) (retries : nat)
    (w : World) :
  let r := fetch_url url retries w in
  exists n,
    (n <= retries)%nat /\ (n = 0%nat <-> retries = 0%nat) /\
    trace r = attempts url 0 n /\
    match value r with
    | Some body => replies url n w = (repeat Failure (n - 1) ++ [Body body])%list
    | None => n = retries /\ replies url n w = repeat Failure n
    end.
Proof. apply fetch_loop_cases. reflexivity. Qed.

(** ** lookup_municipality_codes *)

Section LookupFacts.
Context {RT : Runtime}.
Variables province municipality : string.

Lemma lookup_municipality_codes_value w :
  value (lookup_municipality_codes province municipality w)
  = match value (fetch_url (municipio_url province municipality)
                   default_retries w) with
    | Some text =>
        (match digits_field "cd" text with
         | Some c => Some c
         | None => digits_field "cp" text
         end,
         match digits_field "cmc" text with
         | Some c => Some c
         | None => digits_field "cm" text
         end)
    | None => (None, None)
    end.
Proof.
  unfold lookup_municipality_codes. rewrite value_bind.
  destruct (value (fetch_url _ default_retries w)) as [[|c s]|]; reflexivity.
Qed.

Lemma lookup_code_digits w code :
  fst (value (lookup_municipality_codes province municipality w)) = Some code
  \/ snd (value (lookup_municipality_codes province municipality w))
     = Some code ->
  run_of is_digit code.
Proof.
  rewrite lookup_municipality_codes_value.
  destruct (value (fetch_url _ default_retries w)) as [text|];
    [|cbn; intros [H|H]; discriminate].
  cbn [fst snd]. unfold digits_field. intros [H|H].
  - destruct (re_search (element "cd" is_digit) text) eqn:E.
    + inversion H; subst. eapply element_group; eauto.
    + eapply element_group; eauto.
  - destruct (re_search (element "cmc" is_digit) text) eqn:E.
    + inversion H; subst. eapply element_group; eauto.
    + eapply element_group; eauto.
Qed.
End LookupFacts.

Lemma run_of_truthy cls code : run_of cls code -> truthy (Some code) = true.
Proof. intros [Hne _]. destruct code; [congruence|reflexivity]. Qed.

(** X2.  [lookup_municipality_codes] makes one call of [fetch_url].  When
    the call returns [None] both codes are [None].  Otherwise the delegation
    code is the content of the first [<cd>] element of digits, or of the
    first [<cp>] when there is no [<cd>], and the municipality code that of
    [<cmc>], or of [<cm>].  A code that is returned is a non-empty text of
    decimal digits, so it counts as present and reads as a number. *)
Theorem lookup_codes_are_digits {RT : Runtime}
    (province municipality : string) (w : World) :
  let f := fetch_url (municipio_url province municipality) default_retries w in
  let r := lookup_municipality_codes province municipality w in
  trace r = trace f /\
  (value f = None -> value r = (None, None)) /\
  (forall text,
     value f = Some text ->
     fst (value r) = match digits_field "cd" text with
                     | Some c => Some c
                     | None => digits_field "cp" text
                     end /\
     snd (value r) = match digits_field "cmc" text with
                     | Some c => Some c
                     | None => digits_field "cm" text
                     end) /\
  (forall code,
     fst (value r) = Some code \/ snd (value r) = Some code ->
     run_of is_digit code /\ truthy (Some code) = true /\
     exists n, int code = Some n /\ 0 <= n).
Proof.
  cbv zeta. split; [apply lookup_municipality_codes_run|].
  split; [|split].
  - intros H. now rewrite lookup_municipality_codes_value, H.
  - intros text H. rewrite lookup_municipality_codes_value, H. split; reflexivity.
  - intros code H. apply lookup_code_digits in H.
    split; [exact H|]. split; [eapply run_of_truthy; eauto|].
    destruct H as [Hne Hall]. exists (digits_value 0 code).
    split; [|apply digits_value_nonneg; lia].
    unfold int. destruct code; [congruence|]. now rewrite Hall.
Qed.

(** The scripted registry knows ALMOROX as municipality 13 of delegation 45,
    and knows nothing of any other place. *)
Lemma lookup_codes_are_digits_witness :
  value (lookup_municipality_codes (RT := demo) "TOLEDO" "ALMOROX" 0%nat)
  = (Some "45", Some "13")
  /\ run_of is_digit "45"
  /\ value (lookup_municipality_codes (RT := demo) "MADRID" "NOWHERE" 0%nat)
     = (None, None).
Proof.
  destruct (lookup_codes_are_digits (RT := demo) "TOLEDO" "ALMOROX" 0%nat)
    as (_ & _ & Hv & Hd).
  destruct (Hv "<locat><cd>45</cd><cmc>13</cmc></locat>" eq_refl) as [H1 H2].
  split; [|split].
  - rewrite (surjective_pairing (value _)), H1, H2. reflexivity.
  - apply (Hd "45"). left. rewrite H1. reflexivity.
  - destruct (lookup_codes_are_digits (RT := demo) "MADRID" "NOWHERE" 0%nat)
      as (_ & Hn & _).
    apply Hn. reflexivity.
Defined.

(** ** What holds of every trace made of calls of fetch_url and pauses *)

Section TraceInduction.
Context {RT : Runtime}.
Variable P : list event -> Prop.
Hypothesis P_nil : P [].
Hypothesis P_app : forall t1 t2, P t1 -> P t2 -> P (t1 ++ t2)%list.
Hypothesis P_pause : P [EvSleep 300].
Hypothesis P_fetch :
  forall url w, P (trace (fetch_url url default_retries w)).

Lemma P_get_property province municipality num street_name street_type w :
  P (trace (get_property_from_api province municipality num
              street_name street_type w)).
Proof.
  destruct (get_property_run province municipality num street_name
              street_type w) as [-> _].
  apply P_fetch.
Qed.

Lemma P_get_plot_surface ref del_code mun_code w :
  P (trace (get_plot_surface ref del_code mun_code w)).
Proof.
  destruct (truthy del_code) eqn:Hd.
  2:{ rewrite get_plot_surface_no_codes by auto. exact P_nil. }
  destruct (truthy mun_code) eqn:Hm.
  2:{ rewrite get_plot_surface_no_codes by auto. exact P_nil. }
  destruct del_code as [d|]; [|discriminate].
  destruct mun_code as [m|]; [|discriminate].
  assert (Hd' : d <> "") by (intros ->; discriminate).
  assert (Hm' : m <> "") by (intros ->; discriminate).
  destruct (get_plot_surface_run ref d m w Hd' Hm') as (-> & _).
  apply P_fetch.
Qed.

Lemma P_plot_cell args del_code mun_code prop w :
  P (trace (plot_cell args del_code mun_code prop w)).
Proof.
  rewrite plot_cell_trace.
  destruct (Args.no_plot_surface args); [exact P_nil|].
  apply P_get_plot_surface.
Qed.

Lemma P_scan_run args province municipality del_code mun_code
    street_type street_name nums st w log st' tr w' :
  scan_run args province municipality del_code mun_code street_type
    street_name nums st w log st' tr w' ->
  P tr.
Proof.
  induction 1.
  - exact P_nil.
  - change tp with (trace (None (A := api_property), tp, w1)).
    rewrite <- H. apply P_get_property.
  - apply P_app; [|assumption].
    change tp with (trace (None (A := api_property), tp, w1)).
    rewrite <- H. apply P_get_property.
  - apply P_app.
    { change tp with (trace (Some prop, tp, w1)).
      rewrite <- H. apply P_get_property. }
    apply P_app.
    { change tc with (trace (plot, tc, w2)). rewrite <- H0.
      apply P_plot_cell. }
    change (EvSleep 300 :: tr) with ([EvSleep 300] ++ tr)%list.
    apply P_app; assumption.
Qed.

Lemma P_scan_street args province municipality del_code mun_code
    street_type street_name props w :
  P (trace (scan_street args province municipality del_code mun_code
              street_type street_name props w)).
Proof.
  destruct (scan_street_log args province municipality del_code mun_code
              street_type street_name props w) as (log & Hrun & _).
  eapply P_scan_run; eauto.
Qed.

Lemma P_scan_streets args province municipality del_code mun_code streets :
  forall props w,
    P (trace (scan_streets args province municipality del_code mun_code
                streets props w)).
Proof.
  induction streets as [|[street_type street_name] rest IH]; intros props w.
  - exact P_nil.
  - cbn [scan_streets]. rewrite trace_bind.
    apply P_app; [apply P_scan_street|apply IH].
Qed.

Lemma P_collect args w : P (trace (collect args w)).
Proof.
  rewrite collect_run. cbn [trace fst snd].
  apply P_app; [|apply P_app].
  - unfold lookup_codes. destruct (Args.no_plot_surface args); cbn [negb].
    + exact P_nil.
    + rewrite lookup_municipality_codes_run. apply P_fetch.
  - match goal with
    | |- context [discover_streets ?p ?m ?s ?w0] =>
        destruct (discover_streets_run p m s w0) as [-> _]
    end.
    apply P_fetch.
  - apply P_scan_streets.
Qed.
End TraceInduction.

(** ** How many requests a run makes *)

Section RequestFacts.
Context {RT : Runtime}.

Lemma fetch_url_requests url w :
  (List.length (urls (trace (fetch_url url default_retries w))) <= 3)%nat /\
  incl (urls (trace (fetch_url url default_retries w)))
    (calls (trace (fetch_url url default_retries w))).
Proof.
  rewrite calls_fetch_url.
  destruct (fetch_url_cases url w) as (n & Hn & Ht & _).
  cbv zeta in Ht. rewrite Ht, urls_attempts, repeat_length.
  split; [lia|]. intros u Hu. apply repeat_spec in Hu. now left.
Qed.

Lemma collect_requests args w :
  (List.length (urls (trace (collect args w)))
   <= 3 * List.length (calls (trace (collect args w))))%nat /\
  incl (urls (trace (collect args w))) (calls (trace (collect args w))).
Proof.
  apply (P_collect
           (fun tr => (List.length (urls tr) <= 3 * List.length (calls tr))%nat
                      /\ incl (urls tr) (calls tr))).
  - split; [cbn; lia|intros u []].
  - intros t1 t2 [H1 I1] [H2 I2].
    rewrite urls_app, calls_app, !length_app. split; [lia|].
    apply incl_app; [now apply incl_appl|now apply incl_appr].
  - split; [cbn; lia|intros u []].
  - intros url w0. destruct (fetch_url_requests url w0) as [H I].
    split; [|exact I]. rewrite calls_fetch_url. cbn [List.length]. lia.
Qed.

Lemma main_urls args w :
  urls (trace (main args w)) = urls (trace (collect args w)) /\
  calls (trace (main args w)) = calls (trace (collect args w)).
Proof.
  rewrite main_run. cbn [trace fst snd]. rewrite urls_app, calls_app.
  change (urls (EvOpen (output_file args) :: EvRow header
                  :: map (fun p => EvRow (row p))
                       (sorted (value (collect args w)))))
    with (urls (map (fun p => EvRow (row p))
                  (sorted (value (collect args w))))).
  change (calls (EvOpen (output_file args) :: EvRow header
                   :: map (fun p => EvRow (row p))
                        (sorted (value (collect args w)))))
    with (calls (map (fun p => EvRow (row p))
                   (sorted (value (collect args w))))).
  destruct (network_of_rows (sorted (value (collect args w))))
    as (_ & -> & ->).
  now rewrite !app_nil_r.
Qed.

Lemma iteration_calls_length args province municipality del_code mun_code
    street_type street_name it :
  (List.length (iteration_calls args province municipality del_code mun_code
                  street_type street_name it)
   <= if Args.no_plot_surface args then 1 else 2)%nat.
Proof.
  unfold iteration_calls, plots_enabled.
  destruct (snd it); cbn [List.length];
    destruct (Args.no_plot_surface args); cbn [negb andb List.length];
    try lia.
  destruct (truthy del_code && truthy mun_code)%bool; cbn; lia.
Qed.

Lemma street_calls_length args province municipality del_code mun_code
    streets : forall logs,
  Forall2 (street_log (Args.max_number args)) streets logs ->
  (List.length
     (flat_map (street_calls args province municipality del_code mun_code)
        (combine streets logs))
   <= (if Args.no_plot_surface args then 1 else 2)
      * Z.to_nat (Args.max_number args) * List.length streets)%nat.
Proof.
  induction 1 as [|[street_type street_name] log streets logs Hlog _ IH].
  - cbn. lia.
  - cbn [combine flat_map List.length]. rewrite length_app.
    assert (Hone :
      (List.length (street_calls args province municipality del_code mun_code
                      (street_type, street_name, log))
       <= (if Args.no_plot_surface args then 1 else 2)
          * Z.to_nat (Args.max_number args))%nat).
    { cbn [street_calls]. destruct Hlog as (_ & Hlen & _).
      assert (Hl : (List.length log <= Z.to_nat (Args.max_number args))%nat)
        by lia.
      assert (Hflat :
        (List.length
           (flat_map (iteration_calls args province municipality del_code
                        mun_code street_type street_name) log)
         <= (if Args.no_plot_surface args then 1 else 2)
            * List.length log)%nat).
      { clear Hlen Hl. induction log as [|it log IHl].
        - cbn. lia.
        - cbn [flat_map]. rewrite length_app.
          pose proof (iteration_calls_length args province municipality
                        del_code mun_code street_type street_name it).
          cbn [List.length].
          destruct (Args.no_plot_surface args); lia. }
      destruct (Args.no_plot_surface args); nia. }
    destruct (Args.no_plot_surface args); nia.
Qed.
End RequestFacts.

(** X3.  A run makes at most three requests for each call of [fetch_url],
    and requests no URL that is not the URL of a call.  The calls are at most
    two for the lookup and the discovery, and two for every number up to
    [--max-number] of every street discovered; with [--no-plot-surface], one
    for the discovery and one for every such number. *)
Theorem requests_bounded {RT : Runtime} (args : Args.t) (w : World) :
  let tr := trace (main args w) in
  let streets :=
    value (discover_streets (upper (Args.province args))
             (upper (Args.municipality args)) (upper (Args.street args))
             (world_after (lookup_codes args w))) in
  let per_number := if Args.no_plot_surface args then 1%nat else 2%nat in
  (List.length (urls tr) <= 3 * List.length (calls tr))%nat /\
  incl (urls tr) (calls tr) /\
  (List.length (calls tr)
   <= per_number
      + per_number * Z.to_nat (Args.max_number args) * List.length streets)%nat.
Proof.
  cbv zeta. destruct (main_urls args w) as [-> ->].
  destruct (collect_requests args w) as [Hb Hi].
  split; [exact Hb|]. split; [exact Hi|].
  rewrite collect_run. cbn [trace fst snd]. rewrite !calls_app, !length_app.
  destruct (lookup_codes_run args w) as (-> & _).
  match goal with
  | |- context [discover_streets ?p ?m ?s ?w0] =>
      destruct (discover_streets_requests p m s w0) as (-> & _)
  end.
  match goal with
  | |- context [scan_streets ?a ?p ?m ?d ?c ?s [] ?w0] =>
      destruct (scan_streets_summary a p m d c s [] w0)
        as (logs & Hlogs & _ & _ & _ & _ & _ & ->)
  end.
  pose proof (street_calls_length args (upper (Args.province args))
                (upper (Args.municipality args))
                (fst (value (lookup_codes args w)))
                (snd (value (lookup_codes args w))) _ _ Hlogs) as H.
  destruct (Args.no_plot_surface args); cbn [List.length] in *; lia.
Qed.

(** ** When a run pauses *)

Lemma pauses_app t1 t2 : pauses (t1 ++ t2) = (pauses t1 ++ pauses t2)%list.
Proof. apply flat_map_app. Qed.

Lemma short_pauses_app t1 t2 :
  short_pauses (t1 ++ t2) = (short_pauses t1 + short_pauses t2)%nat.
Proof. unfold short_pauses. now rewrite pauses_app, filter_app, length_app. Qed.

Lemma pauses_attempts url n : forall i,
  pauses (attempts url i n) = repeat 2000 (n - 1).
Proof.
  induction n as [|n IH]; intros i; [reflexivity|].
  destruct n as [|n]; [reflexivity|].
  change (pauses (attempts url i (S (S n))))
    with (2000 :: pauses (attempts url (S i) (S n))).
  rewrite IH. cbn. now rewrite Nat.sub_0_r.
Qed.

Lemma short_pauses_repeat n :
  List.length (filter (Z.eqb 300) (repeat 2000 n)) = 0%nat.
Proof. induction n as [|n IH]; cbn; auto. Qed.

Section PauseFacts.
Context {RT : Runtime}.

Lemma fetch_url_pauses url w :
  let tr := trace (fetch_url url default_retries w) in
  Forall (eq 2000) (pauses tr) /\ short_pauses tr = 0%nat /\
  (List.length (pauses tr) + 1 = List.length (urls tr))%nat.
Proof.
  cbv zeta. destruct (fetch_url_cases url w) as (n & Hn & Ht & _).
  cbv zeta in Ht. unfold short_pauses.
  rewrite Ht, pauses_attempts, urls_attempts, !repeat_length.
  split; [|split; [apply short_pauses_repeat|lia]].
  apply Forall_forall. intros x Hx. apply repeat_spec in Hx. now symmetry.
Qed.

Lemma run_short_pauses args province municipality del_code mun_code
    street_type street_name nums st w log st' tr w' :
  scan_run args province municipality del_code mun_code street_type
    street_name nums st w log st' tr w' ->
  short_pauses tr = List.length (hits log).
Proof.
  assert (Hp : forall num w0,
    short_pauses (trace (get_property_from_api province municipality num
                           street_name street_type w0)) = 0%nat).
  { intros num w0.
    apply (P_get_property (fun tr => short_pauses tr = 0%nat)).
    intros url w1. apply fetch_url_pauses. }
  assert (Hc : forall prop w0,
    short_pauses (trace (plot_cell args del_code mun_code prop w0)) = 0%nat).
  { intros prop w0.
    apply (P_plot_cell (fun tr => short_pauses tr = 0%nat)); [reflexivity|].
    intros url w1. apply fetch_url_pauses. }
  induction 1; cbn [hits flat_map snd app List.length].
  - reflexivity.
  - change tp with (trace (None (A := api_property), tp, w1)).
    rewrite <- H. apply Hp.
  - rewrite short_pauses_app, IHscan_run.
    change tp with (trace (None (A := api_property), tp, w1)).
    rewrite <- H, Hp. reflexivity.
  - change (EvSleep 300 :: tr) with ([EvSleep 300] ++ tr)%list.
    rewrite !short_pauses_app, IHscan_run.
    change tp with (trace (Some prop, tp, w1)). rewrite <- H, Hp.
    change tc with (trace (plot, tc, w2)). rewrite <- H0, Hc.
    reflexivity.
Qed.

Lemma scan_streets_short_pauses args province municipality del_code mun_code
    streets : forall props w,
  let r := scan_streets args province municipality del_code mun_code
             streets props w in
  (short_pauses (trace r) + List.length props = List.length (value r))%nat.
Proof.
  induction streets as [|[street_type street_name] rest IH]; intros props w.
  - reflexivity.
  - cbv zeta. cbn [scan_streets]. rewrite trace_bind, value_bind.
    rewrite short_pauses_app.
    destruct (scan_street_log args province municipality del_code mun_code
                street_type street_name props w) as (log & Hrun & _).
    rewrite (run_short_pauses _ _ _ _ _ _ _ _ _ _ _ _ _ _ Hrun).
    destruct (run_properties _ _ _ _ _ _ _ _ _ _ _ _ _ _ Hrun) as [Hp _].
    cbn [properties] in Hp.
    specialize (IH (properties (value (scan_street args province municipality
                                         del_code mun_code street_type
                                         street_name props w)))
                  (world_after (scan_street args province municipality
                                  del_code mun_code street_type street_name
                                  props w))).
    cbv zeta in IH. rewrite <- IH, Hp, length_app. lia.
Qed.
End PauseFacts.

(** X4.  A run pauses for 0.3 s once for every property it collects, and
    otherwise only for 2 s, once between two successive attempts of a call of
    [fetch_url]: the pauses of 2 s are as many as the requests beyond the
    first of each call. *)
Theorem pauses_of_a_run {RT : Runtime} (args : Args.t) (w : World) :
  let tr := trace (main args w) in
  Forall (fun ms => ms = 2000 \/ ms = 300) (pauses tr) /\
  short_pauses tr = List.length (value (collect args w)) /\
  (List.length (pauses tr) + List.length (calls tr)
   = List.length (urls tr) + short_pauses tr)%nat.
Proof.
  cbv zeta.
  assert (Hmain : pauses (trace (main args w)) = pauses (trace (collect args w))).
  { rewrite main_run. cbn [trace fst snd]. rewrite pauses_app.
    change (pauses (EvOpen (output_file args) :: EvRow header
                      :: map (fun p => EvRow (row p))
                           (sorted (value (collect args w)))))
      with (pauses (map (fun p => EvRow (row p))
                      (sorted (value (collect args w))))).
    assert (Hrows : forall l, pauses (map (fun p => EvRow (row p)) l) = []).
    { intros l. unfold pauses. induction l; cbn; auto. }
    now rewrite Hrows, app_nil_r. }
  unfold short_pauses at 1 2. rewrite Hmain.
  destruct (main_urls args w) as [-> ->].
  fold (short_pauses (trace (collect args w))).
  split; [|split].
  - apply (P_collect (fun tr => Forall (fun ms => ms = 2000 \/ ms = 300)
                                  (pauses tr))).
    + constructor.
    + intros t1 t2 H1 H2. rewrite pauses_app. apply Forall_app. now split.
    + cbn. constructor; [now right|constructor].
    + intros url w0. destruct (fetch_url_pauses url w0) as (H & _).
      eapply Forall_impl; [|exact H]. intros ms <-. now left.
  - rewrite collect_run. cbn [trace value fst snd]. rewrite !short_pauses_app.
    assert (H1 : short_pauses (trace (lookup_codes args w)) = 0%nat).
    { unfold lookup_codes. destruct (Args.no_plot_surface args); cbn [negb];
        [reflexivity|].
      rewrite lookup_municipality_codes_run. apply fetch_url_pauses. }
    rewrite H1.
    match goal with
    | |- context [discover_streets ?p ?m ?s ?w0] =>
        destruct (discover_streets_run p m s w0) as [-> _];
        destruct (fetch_url_pauses (via_url p m s) w0) as (_ & -> & _)
    end.
    match goal with
    | |- context [scan_streets ?a ?p ?m ?d ?c ?s [] ?w0] =>
        pose proof (scan_streets_short_pauses a p m d c s [] w0) as H3
    end.
    cbv zeta in H3. cbn [List.length] in H3. lia.
  - apply (P_collect
             (fun tr => (List.length (pauses tr) + List.length (calls tr)
                         = List.length (urls tr) + short_pauses tr)%nat)).
    + reflexivity.
    + intros t1 t2 H1 H2.
      rewrite pauses_app, calls_app, urls_app, short_pauses_app, !length_app.
      lia.
    + reflexivity.
    + intros url w0. destruct (fetch_url_pauses url w0) as (_ & -> & H).
      rewrite calls_fetch_url. cbn [List.length]. lia.
Qed.

(** ** The properties a street adds *)

Lemma range_ascending a b : StronglySorted Z.lt (range a b).
Proof.
  unfold range. generalize (Z.to_nat (b - a)) as n. generalize 0%nat as s.
  intros s n. revert s. induction n as [|n IH]; intros s; cbn.
  - constructor.
  - constructor; [apply IH|].
    apply Forall_forall. intros x Hx. apply in_map_iff in Hx.
    destruct Hx as (i & <- & Hi). apply in_seq in Hi. lia.
Qed.

Lemma hits_ascending log :
  StronglySorted Z.lt (map fst log) ->
  Forall (fun it => forall p, snd it = Some p -> number (api p) = fst it) log ->
  StronglySorted Z.lt (map (fun p => number (api p)) (hits log)).
Proof.
  induction log as [|it log IH]; intros Hs Hh; [constructor|].
  cbn [map] in Hs. apply StronglySorted_inv in Hs. destruct Hs as [Hs Hlt].
  inversion Hh as [|? ? Hit Hh']; subst.
  specialize (IH Hs Hh').
  unfold hits. cbn [flat_map]. fold (hits log).
  destruct (snd it) as [p|] eqn:Ep; [|exact IH].
  cbn [app map]. constructor; [exact IH|].
  apply Forall_forall. intros x Hx. apply in_map_iff in Hx.
  destruct Hx as (q & <- & Hq). apply hits_in in Hq. destruct Hq as (num & Hin).
  rewrite (Hit p eq_refl).
  rewrite Forall_forall in Hh', Hlt.
  rewrite (proj1 (conj (Hh' _ Hin q eq_refl) I)). cbn [fst].
  apply Hlt. change num with (fst (num, Some q)). now apply in_map.
Qed.

(** X5.  The properties that the scan of a street appends carry strictly
    increasing numbers, hence no number twice, and the name of the street
    scanned; [found_in_street] ends as their count. *)
Theorem street_hits_in_order {RT : Runtime} (args : Args.t)
    (province municipality : string) (del_code mun_code : option string)
    (street_type street_name : string) (props : list property) (w : World) :
  let r := scan_street args province municipality del_code mun_code
             street_type street_name props w in
  exists new,
    properties (value r) = (props ++ new)%list /\
    StronglySorted Z.lt (map (fun p => number (api p)) new) /\
    NoDup (map (fun p => number (api p)) new) /\
    Forall (fun p => street (api p) = street_type ++ " " ++ street_name) new /\
    found_in_street (value r) = Z.of_nat (List.length new).
Proof.
  cbv zeta.
  destruct (scan_street_log args province municipality del_code mun_code
              street_type street_name props w) as (log & Hrun & Hnums & _).
  pose proof (run_hits _ _ _ _ _ _ _ _ _ _ _ _ _ _ Hrun) as Hh.
  destruct (run_properties _ _ _ _ _ _ _ _ _ _ _ _ _ _ Hrun) as [Hp Hf].
  cbn [properties found_in_street] in Hp, Hf.
  assert (Hs : StronglySorted Z.lt (map (fun p => number (api p)) (hits log))).
  { apply hits_ascending.
    - rewrite Hnums. apply range_ascending.
    - eapply Forall_impl; [|exact Hh]. cbn. intros it H p Hp'.
      now apply H. }
  exists (hits log). split; [exact Hp|]. split; [exact Hs|].
  split; [|split; [|lia]].
  - clear -Hs. induction Hs as [|x l Hl IH Hx]; constructor; [|exact IH].
    intros Hin. rewrite Forall_forall in Hx. specialize (Hx _ Hin). lia.
  - apply Forall_forall. intros p Hp'. apply hits_in in Hp'.
    destruct Hp' as (num & Hin). rewrite Forall_forall in Hh.
    now apply (Hh _ Hin p eq_refl).
Qed.

(** ** What the arguments can do to a URL *)

Lemma count_char_app c a b :
  count_char c (a ++ b) = (count_char c a + count_char c b)%nat.
Proof. induction a as [|x a IH]; cbn; [reflexivity|]. rewrite IH. lia. Qed.

Lemma all_chars_app p a b :
  all_chars p (a ++ b) = (all_chars p a && all_chars p b)%bool.
Proof.
  induction a as [|x a IH]; cbn; [reflexivity|].
  now rewrite IH, andb_assoc.
Qed.

Lemma count_char_absent p c s :
  all_chars p s = true -> p c = false -> count_char c s = 0%nat.
Proof.
  intros Hs Hc. induction s as [|x s IH]; [reflexivity|].
  cbn in Hs. apply andb_true_iff in Hs. destruct Hs as [Hx Hs].
  cbn. rewrite (IH Hs).
  destruct (Ascii.eqb x c) eqn:E; [|reflexivity].
  apply Ascii.eqb_eq in E. congruence.
Qed.

Lemma hex_digit_safe n : (n < 16)%N -> url_safe (hex_digit n) = true.
Proof.
  intros H.
  assert (Hn : In n (map N.of_nat (seq 0 16))).
  { apply in_map_iff. exists (N.to_nat n). split; [lia|].
    apply in_seq. lia. }
  cbn in Hn. repeat (destruct Hn as [<-|Hn]; [reflexivity|]). destruct Hn.
Qed.

Lemma percent_safe byte : (byte < 256)%N -> all_chars url_safe (percent byte) = true.
Proof.
  intros H. unfold percent. cbn [all_chars].
  rewrite !hex_digit_safe.
  - reflexivity.
  - apply N.mod_lt. lia.
  - apply N.Div0.div_lt_upper_bound. lia.
Qed.

Lemma quote_safe s : all_chars url_safe (quote s) = true.
Proof.
  induction s as [|c s IH]; [reflexivity|].
  cbn [quote]. rewrite all_chars_app, IH, andb_true_r.
  unfold quote_char. pose proof (N_ascii_bounded c) as Hc. fold (code c) in Hc.
  destruct (is_unreserved c) eqn:Hu.
  - cbn. unfold url_safe. now rewrite Hu.
  - destruct (N.ltb (code c) 128) eqn:Hlt.
    + apply percent_safe. lia.
    + rewrite all_chars_app, !percent_safe; [reflexivity| |].
      * assert (code c mod 64 < 64)%N by (apply N.mod_lt; lia). lia.
      * assert (code c / 64 < 4)%N
          by (apply N.Div0.div_lt_upper_bound; lia).
        lia.
Qed.

Lemma string_of_uint_digits d :
  all_chars is_sign_or_digit (NilEmpty.string_of_uint d) = true.
Proof. induction d; cbn; auto. Qed.

Lemma str_of_int_digits n : all_chars is_sign_or_digit (str_of_int n) = true.
Proof.
  unfold str_of_int, NilZero.string_of_int, NilZero.string_of_uint.
  destruct (Z.to_int n) as [d|d]; [|cbn [all_chars]];
    destruct d; try reflexivity; apply string_of_uint_digits.
Qed.

Lemma run_of_sign_or_digit code :
  run_of is_digit code -> all_chars is_sign_or_digit code = true.
Proof.
  intros [_ H]. induction code as [|c s IH]; [reflexivity|].
  cbn in H. apply andb_true_iff in H. destruct H as [Hc Hs].
  cbn. unfold is_sign_or_digit at 1. rewrite Hc. cbn. auto.
Qed.

(** The occurrences of a separator are those of the constant parts. *)
Lemma separator_counts c :
  url_safe c = false -> is_sign_or_digit c = false ->
  (forall s, count_char c (quote s) = 0%nat) /\
  (forall n, count_char c (str_of_int n) = 0%nat) /\
  (forall code, run_of is_digit code -> count_char c code = 0%nat).
Proof.
  intros Hq Hd. split; [|split].
  - intros s. eapply count_char_absent; [apply quote_safe|exact Hq].
  - intros n. eapply count_char_absent; [apply str_of_int_digits|exact Hd].
  - intros code H. eapply count_char_absent;
      [apply run_of_sign_or_digit; exact H|exact Hd].
Qed.

Section UrlShape.
Variable c : ascii.
Hypothesis c_escaped : url_safe c = false.
Hypothesis c_no_digit : is_sign_or_digit c = false.

Lemma municipio_url_counts province municipality :
  count_char c (municipio_url province municipality)
  = count_char c (municipio_url "" "").
Proof.
  destruct (separator_counts c c_escaped c_no_digit) as (Hq & _ & _).
  unfold municipio_url. rewrite !count_char_app, !Hq. reflexivity.
Qed.

Lemma via_url_counts province municipality street_query :
  count_char c (via_url province municipality street_query)
  = count_char c (via_url "" "" "").
Proof.
  destruct (separator_counts c c_escaped c_no_digit) as (Hq & _ & _).
  unfold via_url. rewrite !count_char_app, !Hq. reflexivity.
Qed.

Lemma dnploc_url_counts province municipality num street_name street_type :
  count_char c (dnploc_url province municipality num street_name street_type)
  = count_char c (dnploc_url "" "" 0 "" "").
Proof.
  destruct (separator_counts c c_escaped c_no_digit) as (Hq & Hn & _).
  unfold dnploc_url. rewrite !count_char_app, !Hq, !Hn. reflexivity.
Qed.

Lemma sede_url_counts ref del_code mun_code :
  run_of is_digit del_code -> run_of is_digit mun_code ->
  count_char c (sede_url ref del_code mun_code)
  = count_char c (sede_url "" "" "").
Proof.
  intros Hd Hm.
  destruct (separator_counts c c_escaped c_no_digit) as (Hq & _ & Hc).
  unfold sede_url. rewrite !count_char_app, !Hq, (Hc _ Hd), (Hc _ Hm).
  reflexivity.
Qed.
End UrlShape.

(** X6.  The arguments cannot change the shape of a URL: whatever the
    province, municipality, street, number and reference, and for codes made
    of digits, each URL has one question mark, no ['#'], no space, and the
    ['&'] and ['='] of the parameters written in the script, because [quote]
    escapes these characters and the decimal writing of a number has none. *)
Theorem urls_keep_their_shape (province municipality street_query : string)
    (num : Z) (street_name street_type ref del_code mun_code : string) :
  run_of is_digit del_code -> run_of is_digit mun_code ->
  let shape := fun u =>
    (count_char "?" u, count_char "&" u, count_char "=" u,
     count_char "#" u, count_char " " u) in
  shape (municipio_url province municipality) = (1, 1, 2, 0, 0)%nat /\
  shape (via_url province municipality street_query) = (1, 3, 4, 0, 0)%nat /\
  shape (dnploc_url province municipality num street_name street_type)
  = (1, 8, 9, 0, 0)%nat /\
  shape (sede_url ref del_code mun_code) = (1, 7, 8, 0, 0)%nat.
Proof.
  intros Hd Hm. cbv zeta beta.
  assert (H : forall c, url_safe c = false -> is_sign_or_digit c = false ->
    count_char c (municipio_url province municipality)
    = count_char c (municipio_url "" "") /\
    count_char c (via_url province municipality street_query)
    = count_char c (via_url "" "" "") /\
    count_char c (dnploc_url province municipality num street_name street_type)
    = count_char c (dnploc_url "" "" 0 "" "") /\
    count_char c (sede_url ref del_code mun_code)
    = count_char c (sede_url "" "" "")).
  { intros c H1 H2.
    split; [now apply municipio_url_counts|].
    split; [now apply via_url_counts|].
    split; [now apply dnploc_url_counts|now apply sede_url_counts]. }
  destruct (H "?"%char eq_refl eq_refl) as (-> & -> & -> & ->).
  destruct (H "&"%char eq_refl eq_refl) as (-> & -> & -> & ->).
  destruct (H "="%char eq_refl eq_refl) as (-> & -> & -> & ->).
  destruct (H "#"%char eq_refl eq_refl) as (-> & -> & -> & ->).
  destruct (H " "%char eq_refl eq_refl) as (-> & -> & -> & ->).
  repeat split.
Qed.

(** A street with a space, an ampersand and an accent in its name. *)
Lemma urls_keep_their_shape_witness :
  count_char "&"
    (dnploc_url "TOLEDO" "ALMOROX" 12
       ("PE" ++ String (ascii_of_N 209) "A & CIA?") "CL") = 8%nat
  /\ count_char "&" (sede_url "1234567UK7613S" "45" "13") = 7%nat.
Proof.
  destruct (urls_keep_their_shape "TOLEDO" "ALMOROX" "REAL" 12
              ("PE" ++ String (ascii_of_N 209) "A & CIA?") "CL"
              "1234567UK7613S" "45" "13") as (_ & _ & H3 & H4).
  - split; [discriminate|reflexivity].
  - split; [discriminate|reflexivity].
  - cbv zeta beta in *. inversion H3. inversion H4. split; reflexivity.
Defined.

Section RunUrls.
Context {RT : Runtime}.

Lemma collect_calls_form args w u :
  In u (calls (trace (collect args w))) ->
  u = municipio_url (upper (Args.province args))
        (upper (Args.municipality args)) \/
  u = via_url (upper (Args.province args)) (upper (Args.municipality args))
        (upper (Args.street args)) \/
  (exists num street_name street_type,
     u = dnploc_url (upper (Args.province args))
           (upper (Args.municipality args)) num street_name street_type) \/
  (exists ref d m,
     u = sede_url ref d m /\ run_of is_digit d /\ run_of is_digit m).
Proof.
  rewrite collect_run. cbn [trace fst snd]. rewrite !calls_app.
  destruct (lookup_codes_run args w) as (-> & _).
  match goal with
  | |- context [discover_streets ?p ?m ?s ?w0] =>
      destruct (discover_streets_requests p m s w0) as (-> & _)
  end.
  match goal with
  | |- context [scan_streets ?a ?p ?m ?d ?c ?s [] ?w0] =>
      destruct (scan_streets_summary a p m d c s [] w0)
        as (logs & _ & _ & _ & _ & _ & _ & ->)
  end.
  intros Hin. apply in_app_or in Hin. destruct Hin as [Hin|Hin].
  { destruct (Args.no_plot_surface args); [destruct Hin|].
    destruct Hin as [<-|[]]. now left. }
  apply in_app_or in Hin. destruct Hin as [Hin|Hin].
  { destruct Hin as [<-|[]]. right. now left. }
  apply in_flat_map in Hin.
  destruct Hin as ([[street_type street_name] log] & _ & Hin).
  cbn [street_calls] in Hin. apply in_flat_map in Hin.
  destruct Hin as (it & _ & Hin). unfold iteration_calls in Hin.
  destruct Hin as [<-|Hin]; [right; right; left; eauto|].
  destruct (snd it) as [p|]; [|destruct Hin].
  destruct (plots_enabled args _ _) eqn:Hpl; [|destruct Hin].
  destruct Hin as [<-|[]]. right. right. right.
  unfold plots_enabled in Hpl.
  apply andb_true_iff in Hpl. destruct Hpl as [Hpl Hm].
  apply andb_true_iff in Hpl. destruct Hpl as [Hflag Hd].
  unfold lookup_codes in *. rewrite Hflag in *.
  set (codes := value (lookup_municipality_codes (upper (Args.province args))
                         (upper (Args.municipality args)) w)) in *.
  destruct (fst codes) as [d|] eqn:Ed; [|discriminate].
  destruct (snd codes) as [m|] eqn:Em; [|discriminate].
  exists (referencia_catastral (api p)), d, m.
  split; [reflexivity|]. unfold codes in Ed, Em.
  split; eapply lookup_code_digits; eauto.
Qed.
End RunUrls.

(** X7.  Every URL requested in a run has exactly one question mark, no
    ['#'] and no space, whatever the command line and whatever the registry
    answers: the texts that come from either are escaped, and the codes
    written as they are into the viewer URL are made of digits. *)
Theorem requested_urls_well_formed {RT : Runtime} (args : Args.t) (w : World) :
  Forall (fun u => count_char "?" u = 1%nat /\ count_char "#" u = 0%nat /\
                   count_char " " u = 0%nat)
    (urls (trace (main args w))).
Proof.
  destruct (main_urls args w) as [-> _].
  apply Forall_forall. intros u Hu.
  apply (proj2 (collect_requests args w)) in Hu.
  apply collect_calls_form in Hu.
  destruct Hu as [->|[->|[(num & n & t & ->)|(ref & d & m & -> & Hd & Hm)]]].
  - rewrite (municipio_url_counts "?" eq_refl eq_refl), (municipio_url_counts "#" eq_refl eq_refl),
      (municipio_url_counts " " eq_refl eq_refl).
    repeat split.
  - rewrite (via_url_counts "?" eq_refl eq_refl), (via_url_counts "#" eq_refl eq_refl),
      (via_url_counts " " eq_refl eq_refl).
    repeat split.
  - rewrite (dnploc_url_counts "?" eq_refl eq_refl), (dnploc_url_counts "#" eq_refl eq_refl),
      (dnploc_url_counts " " eq_refl eq_refl).
    repeat split.
  - rewrite (sede_url_counts "?" eq_refl eq_refl ref _ _ Hd Hm),
      (sede_url_counts "#" eq_refl eq_refl ref _ _ Hd Hm),
      (sede_url_counts " " eq_refl eq_refl ref _ _ Hd Hm).
    repeat split.
Qed.

(** ** What a match of an element is *)

Lemma snoc_app t c x : snoc t c ++ x = t ++ String c x.
Proof. induction t as [|a t IH]; cbn; [reflexivity|]. now rewrite IH. Qed.

Lemma append_assoc (a b c : string) : (a ++ b) ++ c = a ++ b ++ c.
Proof. induction a as [|x a IH]; cbn; [reflexivity|]. now rewrite IH. Qed.

Lemma append_nil_r (a : string) : a ++ "" = a.
Proof. induction a as [|x a IH]; cbn; [reflexivity|]. now rewrite IH. Qed.

Lemma match_lits s re g : forall text r,
  match_here (lits s ++ re)%list g text = Some r <->
  exists text', text = s ++ text' /\ match_here re g text' = Some r.
Proof.
  induction s as [|c s IH]; intros text r.
  - cbn [lits app]. split; [intros H; exists text; auto|].
    intros (text' & -> & H). exact H.
  - cbn [lits app match_here lit item_quant item_class item_group].
    destruct text as [|x text].
    + split; [discriminate|]. intros (text' & H & _). discriminate.
    + destruct (Ascii.eqb c x) eqn:E.
      * apply Ascii.eqb_eq in E. subst x. rewrite IH. split.
        -- intros (text' & -> & H). exists text'. auto.
        -- intros (text' & Ht & H). inversion Ht; subst. eauto.
      * split; [discriminate|]. intros (text' & Ht & _).
        inversion Ht; subst. rewrite Ascii.eqb_refl in E. discriminate.
Qed.

Section GreedyFacts.
Context {R : Type}.
Variable cls : ascii -> bool.
Variable k : string -> string -> option R.

Lemma greedy_sound s : forall taken r,
  greedy cls k taken s = Some r ->
  exists g s', s = g ++ s' /\ all_chars cls g = true /\
               k (taken ++ g) s' = Some r.
Proof.
  induction s as [|c s IH]; intros taken r H; cbn in H.
  - exists "", "". rewrite (append_nil_r taken).
    split; [reflexivity|split; [reflexivity|exact H]].
  - assert (Hstop : k taken (String c s) = Some r ->
      exists g s', String c s = g ++ s' /\ all_chars cls g = true /\
                   k (taken ++ g) s' = Some r).
    { intros Hk. exists "", (String c s). rewrite (append_nil_r taken).
      split; [reflexivity|split; [reflexivity|exact Hk]]. }
    destruct (cls c) eqn:Hc; [|now apply Hstop].
    destruct (greedy cls k (snoc taken c) s) as [r'|] eqn:Hg;
      [|now apply Hstop].
    inversion H; subst r'. destruct (IH _ _ Hg) as (g & s' & -> & Hall & Hk).
    exists (String c g), s'. rewrite snoc_app in Hk.
    split; [reflexivity|]. split; [cbn; now rewrite Hc, Hall|exact Hk].
Qed.

(** A run that nothing of the class follows is taken whole. *)
Lemma greedy_whole g : forall taken s' r,
  all_chars cls g = true ->
  match s' with String c _ => cls c = false | EmptyString => True end ->
  k (taken ++ g) s' = Some r ->
  greedy cls k taken (g ++ s') = Some r.
Proof.
  induction g as [|c g IH]; intros taken s' r Hall Hs' Hk.
  - rewrite append_nil_r in Hk. cbn [append].
    destruct s' as [|c s']; cbn; [exact Hk|]. now rewrite Hs'.
  - cbn in Hall. apply andb_true_iff in Hall. destruct Hall as [Hc Hall].
    cbn [append greedy]. rewrite Hc.
    rewrite (IH (snoc taken c) s' r Hall Hs'); [reflexivity|].
    now rewrite snoc_app.
Qed.
End GreedyFacts.

Lemma element_sound tag cls g0 text g rest :
  match_here (element tag cls) g0 text = Some (g, rest) ->
  text = ("<" ++ tag ++ ">") ++ g ++ ("</" ++ tag ++ ">") ++ rest /\
  run_of cls g.
Proof.
  unfold element. intros H. apply match_lits in H.
  destruct H as (t1 & -> & H).
  cbn [app match_here item_quant item_class item_group] in H.
  destruct t1 as [|c t1]; [discriminate|].
  destruct (cls c) eqn:Hc; [|discriminate].
  apply greedy_sound in H. destruct H as (g' & s' & -> & Hall & H).
  rewrite <- (app_nil_r (lits ("</" ++ tag ++ ">"))) in H.
  apply match_lits in H. destruct H as (t2 & -> & H).
  cbn in H. inversion H; subst. split.
  - reflexivity.
  - split; [discriminate|]. cbn. now rewrite Hc, Hall.
Qed.

Lemma element_complete tag cls g0 g rest :
  run_of cls g -> cls "<"%char = false ->
  match_here (element tag cls) g0
    (("<" ++ tag ++ ">") ++ g ++ ("</" ++ tag ++ ">") ++ rest)
  = Some (g, rest).
Proof.
  intros [Hne Hall] Hlt. unfold element.
  remember ("</" ++ tag ++ ">") as close eqn:Hclose.
  assert (Hfirst : match close ++ rest with
                   | String x _ => cls x = false
                   | EmptyString => True
                   end) by (subst close; exact Hlt).
  clear Hclose. apply match_lits.
  eexists. split; [reflexivity|].
  cbn [app match_here item_quant item_class item_group].
  destruct g as [|c g]; [congruence|].
  cbn in Hall. apply andb_true_iff in Hall. destruct Hall as [Hc Hall].
  cbn [append]. rewrite Hc.
  apply greedy_whole; [exact Hall|exact Hfirst|].
  cbn beta. rewrite <- (app_nil_r (lits close)).
  apply match_lits. eexists. split; [reflexivity|]. reflexivity.
Qed.

Lemma search_sound re text : forall r,
  search_from re text = Some r ->
  exists before s', text = before ++ s' /\
                    match_here re EmptyString s' = Some r.
Proof.
  induction text as [|c text IH]; intros r H; cbn in H.
  - destruct (match_here re "" "") eqn:E; [|discriminate].
    inversion H; subst. exists "", "". split; [reflexivity|exact E].
  - destruct (match_here re "" (String c text)) eqn:E.
    + inversion H; subst. exists "", (String c text).
      split; [reflexivity|exact E].
    + destruct (IH _ H) as (before & s' & -> & Hm).
      exists (String c before), s'. split; [reflexivity|exact Hm].
Qed.


Lemma field_sound tag cls text g :
  re_search (element tag cls) text = Some g ->
  holds_element tag g text /\ run_of cls g.
Proof.
  unfold re_search. intros H.
  destruct (search_from (element tag cls) text) as [[g' rest]|] eqn:E;
    [|discriminate].
  cbn in H. inversion H; subst g'.
  apply search_sound in E. destruct E as (before & s' & -> & E).
  apply element_sound in E. destruct E as [-> Hrun].
  split; [|exact Hrun]. exists before, rest. reflexivity.
Qed.


(** ** Where the fields of a property come from *)

Lemma prefix_append a b : String.prefix a (a ++ b) = true.
Proof.
  induction a as [|x a IH]; cbn; [now destruct b|].
  destruct (ascii_dec x x); [exact IH|congruence].
Qed.

Section HitFacts.
Context {RT : Runtime}.
Variables province municipality : string.
Variable num : Z.
Variables street_name street_type : string.

Lemma get_property_hit_inv w prop :
  value (get_property_from_api province municipality num
           street_name street_type w) = Some prop ->
  exists xml_text pc1 pc2,
    value (fetch_url (dnploc_url province municipality num
                        street_name street_type) default_retries w)
    = Some xml_text /\
    fromstring_ok xml_text = true /\
    search_from re_cuerr xml_text = None /\
    field "pc1" xml_text = Some pc1 /\ field "pc2" xml_text = Some pc2.
Proof.
  unfold get_property_from_api, field. rewrite value_bind.
  destruct (value (fetch_url _ default_retries w)) as [[|c s]|];
    try discriminate.
  destruct (fromstring_ok (String c s)) eqn:Hok; try discriminate.
  cbn [negb].
  destruct (search_from re_cuerr (String c s)) eqn:Herr; try discriminate.
  destruct (re_search (element "pc1" (not_char "<")) (String c s))
    as [pc1|] eqn:H1; try discriminate.
  destruct (re_search (element "pc2" (not_char "<")) (String c s))
    as [pc2|] eqn:H2; try discriminate.
  intros _. exists (String c s), pc1, pc2. auto.
Qed.
End HitFacts.

(** X8.  A property returned by [get_property_from_api] is read off the
    body of the response: its parcel reference is the content of a [<pc1>]
    element of the body followed by that of a [<pc2>] element, both without
    ['<'] and not empty; its full reference starts with the parcel
    reference; its built surface is 0 or the number written in an [<sfc>]
    element; its year is empty or the digits of an [<ant>] element; its use
    is empty or the content of a [<luso>] element. *)
Theorem hit_read_off_the_body {RT : Runtime}
    (province municipality : string) (num : Z)
    (street_name street_type : string) (w : World) (prop : api_property) :
  value (get_property_from_api province municipality num
           street_name street_type w) = Some prop ->
  exists body pc1 pc2,
    value (fetch_url (dnploc_url province municipality num
                        street_name street_type) default_retries w)
    = Some body /\
    holds_element "pc1" pc1 body /\ run_of (not_char "<") pc1 /\
    holds_element "pc2" pc2 body /\ run_of (not_char "<") pc2 /\
    parcel_ref prop = pc1 ++ pc2 /\
    String.prefix (parcel_ref prop) (referencia_catastral prop) = true /\
    (built_surface_m2 prop = 0 \/
     exists g, holds_element "sfc" g body /\
               int g = Some (built_surface_m2 prop)) /\
    0 <= built_surface_m2 prop /\
    (year prop = "" \/
     holds_element "ant" (year prop) body /\ run_of is_digit (year prop)) /\
    (use prop = "" \/ holds_element "luso" (use prop) body).
Proof.
  intros Hv.
  destruct (get_property_hit_inv _ _ _ _ _ _ _ Hv)
    as (body & pc1 & pc2 & Hf & Hok & Herr & H1 & H2).
  rewrite (get_property_hit _ _ _ _ _ _ _ _ _ Hf Hok Herr H1 H2) in Hv.
  inversion Hv; subst prop; clear Hv. cbn.
  exists body, pc1, pc2. split; [exact Hf|].
  destruct (field_sound _ _ _ _ H1) as [He1 Hr1].
  destruct (field_sound _ _ _ _ H2) as [He2 Hr2].
  split; [exact He1|]. split; [exact Hr1|].
  split; [exact He2|]. split; [exact Hr2|].
  split; [reflexivity|]. split; [apply prefix_append|].
  unfold digits_field, field.
  split; [|split; [|split]].
  - destruct (re_search (element "sfc" is_digit) body) as [g|] eqn:E;
      [|now left].
    right. exists g. split; [apply (field_sound _ _ _ _ E)|].
    apply (int_of_digits_group "sfc" body g E).
  - destruct (re_search (element "sfc" is_digit) body) as [g|] eqn:E; [|lia].
    apply (int_of_digits_group "sfc" body g E).
  - destruct (re_search (element "ant" is_digit) body) as [g|] eqn:E;
      [|now left].
    right. cbn. exact (field_sound _ _ _ _ E).
  - destruct (re_search (element "luso" (not_char "<")) body) as [g|] eqn:E;
      [|now left].
    right. cbn. exact (proj1 (field_sound _ _ _ _ E)).
Qed.

(** The building at number 2 of the scripted registry. *)
Lemma hit_read_off_the_body_witness :
  exists prop,
    value (get_property_from_api (RT := demo) "TOLEDO" "ALMOROX" 2 "REAL" "CL"
             0%nat) = Some prop /\
    String.prefix (parcel_ref prop) (referencia_catastral prop) = true /\
    0 <= built_surface_m2 prop.
Proof.
  destruct (value (get_property_from_api (RT := demo) "TOLEDO" "ALMOROX" 2
                     "REAL" "CL" 0%nat)) as [prop|] eqn:E;
    [|vm_compute in E; discriminate E].
  exists prop. split; [reflexivity|].
  destruct (hit_read_off_the_body (RT := demo) "TOLEDO" "ALMOROX" 2
              "REAL" "CL" 0%nat prop E)
    as (_ & _ & _ & _ & _ & _ & _ & _ & _ & Hp & _ & Hb & _).
  split; assumption.
Defined.



(** ** Where the streets come from *)

Lemma findall_sound re s : forall skip g,
  In g (findall_from re skip s) ->
  exists before s' rest,
    s = before ++ s' /\ match_here re EmptyString s' = Some (g, rest).
Proof.
  induction s as [|c s IH]; intros skip g H; [destruct H|].
  cbn [findall_from] in H.
  assert (Hlater : forall skip', In g (findall_from re skip' s) ->
    exists before s' rest,
      String c s = before ++ s' /\ match_here re "" s' = Some (g, rest)).
  { intros skip' H'. destruct (IH _ _ H') as (before & s' & rest & -> & Hm).
    exists (String c before), s', rest. split; [reflexivity|exact Hm]. }
  destruct skip as [|skip]; [|eauto].
  destruct (match_here re "" (String c s)) as [[g' rest]|] eqn:E; [|eauto].
  destruct H as [<-|H]; [|eauto].
  exists "", (String c s), rest. split; [reflexivity|exact E].
Qed.

Lemma findall_complete re s' r :
  match_here re EmptyString s' = Some r -> s' <> "" ->
  forall before, findall_from re O (before ++ s') <> [].
Proof.
  intros Hm Hne before. induction before as [|c before IH].
  - cbn [append]. destruct s' as [|c s']; [congruence|].
    cbn [findall_from]. rewrite Hm. destruct r. discriminate.
  - cbn [append findall_from].
    destruct (match_here re "" (String c (before ++ s'))) as [[g rest]|];
      [discriminate|exact IH].
Qed.

Lemma findall_element tag cls text g :
  In g (re_findall (element tag cls) text) ->
  holds_element tag g text /\ run_of cls g.
Proof.
  unfold re_findall. intros H. apply findall_sound in H.
  destruct H as (before & s' & rest & -> & Hm).
  apply element_sound in Hm. destruct Hm as [-> Hrun].
  split; [|exact Hrun]. exists before, rest. reflexivity.
Qed.

Lemma pair_streets_in names types : forall j sigla name,
  In (sigla, name) (pair_streets j names types) ->
  In name names /\ (sigla = "CL" \/ In sigla types).
Proof.
  induction names as [|n names IH]; intros j sigla name H; [destruct H|].
  cbn [pair_streets] in H. destruct H as [H|H].
  - inversion H; subst. split; [now left|].
    destruct (nth_error types j) eqn:E; [|now left].
    right. eapply nth_error_In; eauto.
  - destruct (IH _ _ _ H) as [Hn Hs]. split; [now right|exact Hs].
Qed.

(** X10.  A street returned by [discover_streets] is the fallback entry, or
    has for name the content of an [<nv>] element of the body and for type
    ["CL"] or the content of a [<tv>] element.  When the body holds an
    [<nv>] element whose content is not empty and has no ['<'], the streets
    returned are as many as the names found, at least one. *)
Theorem streets_read_off_the_body {RT : Runtime}
    (province municipality street_query : string) (w : World) :
  let f := fetch_url (via_url province municipality street_query)
             default_retries w in
  let r := discover_streets province municipality street_query w in
  (forall sigla name,
     In (sigla, name) (value r) ->
     (sigla, name) = ("CL", street_query) \/
     exists body,
       value f = Some body /\
       holds_element "nv" name body /\ run_of (not_char "<") name /\
       (sigla = "CL" \/
        holds_element "tv" sigla body /\ run_of (not_char "<") sigla)) /\
  (forall body name,
     value f = Some body ->
     holds_element "nv" name body -> run_of (not_char "<") name ->
     street_names body <> [] /\
     List.length (value r) = List.length (street_names body)).
Proof.
  cbv zeta. rewrite discover_streets_value. split.
  - intros sigla name Hin.
    destruct (value (fetch_url _ default_retries w)) as [body|];
      [|destruct Hin as [H|[]]; left; now symmetry].
    destruct (street_names body) as [|n names] eqn:En;
      [destruct Hin as [H|[]]; left; now symmetry|].
    right. exists body. split; [reflexivity|].
    apply pair_streets_in in Hin. destruct Hin as [Hn Hs].
    rewrite <- En in Hn. unfold street_names in Hn.
    apply findall_element in Hn. destruct Hn as [He Hr].
    split; [exact He|]. split; [exact Hr|].
    destruct Hs as [->|Hs]; [now left|]. right.
    unfold street_types in Hs. now apply findall_element in Hs.
  - intros body name -> (before & after & ->) Hrun.
    assert (Hne : street_names
                    (before ++ ("<" ++ "nv" ++ ">") ++ name
                     ++ ("</" ++ "nv" ++ ">") ++ after) <> []).
    { unfold street_names, re_findall.
      eapply findall_complete;
        [apply (element_complete "nv" _ "" name after Hrun eq_refl)|].
      discriminate. }
    split; [exact Hne|].
    destruct (street_names _) as [|n names] eqn:En; [congruence|].
    rewrite <- (pair_streets_names (n :: names) (street_types
      (before ++ ("<" ++ "nv" ++ ">") ++ name ++ ("</" ++ "nv" ++ ">")
       ++ after)) 0) at 2.
    now rewrite length_map.
Qed.

(** The street of the scripted registry. *)
Lemma streets_read_off_the_body_witness :
  List.length
    (value (discover_streets (RT := demo) "TOLEDO" "ALMOROX" "REAL" 0%nat))
  = List.length
      (street_names "<calle><dir><tv>CL</tv><nv>REAL</nv></dir></calle>").
Proof.
  destruct (streets_read_off_the_body (RT := demo) "TOLEDO" "ALMOROX" "REAL"
              0%nat) as [_ H].
  apply (H "<calle><dir><tv>CL</tv><nv>REAL</nv></dir></calle>" "REAL").
  - reflexivity.
  - exists "<calle><dir><tv>CL</tv>", "</dir></calle>". reflexivity.
  - split; [discriminate|reflexivity].
Defined.

(** ** The sort keeps the order of equal keys *)

Lemma has_key_iff k p : has_key k p = true <-> sort_key p = k.
Proof.
  unfold has_key, sort_key. destruct k as [s n]. cbn [fst snd].
  rewrite andb_true_iff, String.eqb_eq, Z.eqb_eq. split.
  - intros [-> ->]. reflexivity.
  - intros H. inversion H. auto.
Qed.

Lemma key_lt_differ q p : key_lt q p = true -> sort_key q <> sort_key p.
Proof.
  unfold key_lt, sort_key. intros H E. inversion E as [[Es En]].
  rewrite Es, En in H.
  assert (Hc : String.compare (street (api p)) (street (api p)) = Eq)
    by now apply String_as_OT.cmp_eq.
  rewrite Hc, Z.ltb_irrefl in H. discriminate.
Qed.

Lemma filter_insert k p l :
  filter (has_key k) (insert p l)
  = if has_key k p then p :: filter (has_key k) l else filter (has_key k) l.
Proof.
  induction l as [|q l IH]; [reflexivity|].
  cbn [insert]. destruct (key_lt q p) eqn:Hlt.
  - cbn [filter]. rewrite IH.
    destruct (has_key k p) eqn:Hp; [|reflexivity].
    destruct (has_key k q) eqn:Hq; [|reflexivity].
    apply has_key_iff in Hp, Hq. apply key_lt_differ in Hlt. congruence.
  - cbn [filter]. destruct (has_key k p); reflexivity.
Qed.

(** X11.  The sort is stable: the properties that have the same street and
    the same number come out of [sorted] in the order in which they were
    collected. *)
Theorem sorted_is_stable (l : list property) (k : string * Z) :
  filter (has_key k) (sorted l) = filter (has_key k) l.
Proof.
  induction l as [|p l IH]; [reflexivity|].
  cbn [sorted fold_right]. fold (sorted l). rewrite filter_insert, IH.
  reflexivity.
Qed.

(** ** The name of the output file *)

Lemma replace_char_absent old new s :
  old <> new -> count_char old (replace_char old new s) = 0%nat.
Proof.
  intros Hne. induction s as [|c s IH]; [reflexivity|].
  cbn [replace_char count_char]. rewrite IH.
  destruct (Ascii.eqb c old) eqn:E.
  - destruct (Ascii.eqb new old) eqn:E'; [|reflexivity].
    apply Ascii.eqb_eq in E'. congruence.
  - rewrite E. reflexivity.
Qed.

(** X12.  A name given with [--output] that is not empty is the name of the
    output file, as it is.  Without [--output], or with an empty name, the
    file is named after the municipality and the street, with no space in
    the name and [_catastro.csv] at its end. *)
Theorem output_file_name {RT : Runtime} (args : Args.t) :
  (forall name,
     Args.output args = Some name -> name <> "" -> output_file args = name) /\
  (Args.output args = None \/ Args.output args = Some "" ->
   count_char " " (output_file args) = 0%nat /\
   exists stem, output_file args = stem ++ "_catastro.csv").
Proof.
  unfold output_file. split.
  - intros name -> Hne. destruct name; [congruence|reflexivity].
  - intros H.
    assert (E : match Args.output args with
                | Some (String _ _ as name) => name
                | _ =>
                    replace_char " " "_"
                      (lower (upper (Args.municipality args))) ++ "_"
                    ++ replace_char " " "_" (lower (upper (Args.street args)))
                    ++ "_catastro.csv"
                end
                = replace_char " " "_"
                    (lower (upper (Args.municipality args))) ++ "_"
                  ++ replace_char " " "_" (lower (upper (Args.street args)))
                  ++ "_catastro.csv")
      by (destruct H as [-> | ->]; reflexivity).
    rewrite E. split.
    + rewrite !count_char_app, !replace_char_absent by discriminate.
      reflexivity.
    + eexists. rewrite <- !append_assoc. reflexivity.
Qed.

(** On the scripted registry, whose [lower] is that of ASCII. *)
Lemma output_file_name_witness :
  output_file (RT := demo) (demo_args false) = "almorox_real_catastro.csv"
  /\ count_char " " (output_file (RT := demo) (demo_args false)) = 0%nat.
Proof.
  destruct (output_file_name (RT := demo) (demo_args false)) as [_ H].
  destruct H as [H _]; [left; reflexivity|].
  split; [reflexivity|exact H].
Defined.

(** ** Nothing to scan *)

Section EmptyScan.
Context {RT : Runtime}.

Lemma scan_streets_nothing args province municipality del_code mun_code
    streets : forall props w,
  Args.max_number args <= 0 ->
  scan_streets args province municipality del_code mun_code streets props w
  = (props, [], w).
Proof.
  induction streets as [|[street_type street_name] rest IH];
    intros props w Hmax; [reflexivity|].
  cbn [scan_streets]. unfold bind, scan_street.
  replace (range 1 (Args.max_number args + 1)) with (@nil Z).
  - cbn [scan_numbers ret properties]. now rewrite IH.
  - unfold range. replace (Z.to_nat (Args.max_number args + 1 - 1)) with 0%nat
      by lia. reflexivity.
Qed.
End EmptyScan.

(** X13.  With a [--max-number] of zero or less no number is probed: the
    run makes the lookup, unless told not to, and the discovery, collects
    nothing and writes the header alone. *)
Theorem nothing_to_scan {RT : Runtime} (args : Args.t) (w : World) :
  Args.max_number args <= 0 ->
  value (collect args w) = [] /\
  rows (trace (main args w)) = [header] /\
  calls (trace (main args w))
  = ((if Args.no_plot_surface args then []
      else [municipio_url (upper (Args.province args))
              (upper (Args.municipality args))])
     ++ [via_url (upper (Args.province args)) (upper (Args.municipality args))
           (upper (Args.street args))])%list.
Proof.
  intros Hmax.
  assert (Hv : value (collect args w) = []).
  { rewrite collect_run. cbn [value fst].
    now rewrite scan_streets_nothing. }
  split; [exact Hv|]. split.
  - rewrite main_rows, Hv. reflexivity.
  - destruct (main_urls args w) as [_ ->].
    rewrite collect_run. cbn [trace fst snd].
    rewrite scan_streets_nothing by exact Hmax. cbn [trace fst snd].
    rewrite app_nil_r, calls_app.
    destruct (lookup_codes_run args w) as (-> & _).
    match goal with
    | |- context [discover_streets ?p ?m ?s ?w0] =>
        destruct (discover_streets_requests p m s w0) as (-> & _)
    end.
    reflexivity.
Qed.

(** On the scripted registry, with [--max-number 0]. *)
Lemma nothing_to_scan_witness :
  rows (trace (main (RT := demo)
                 {| Args.province := "TOLEDO"; Args.municipality := "ALMOROX";
                    Args.street := "REAL"; Args.max_number := 0;
                    Args.consecutive_misses := 40; Args.output := None;
                    Args.no_plot_surface := false |} 0%nat))
  = [header].
Proof.
  apply (nothing_to_scan (RT := demo)
           {| Args.province := "TOLEDO"; Args.municipality := "ALMOROX";
              Args.street := "REAL"; Args.max_number := 0;
              Args.consecutive_misses := 40; Args.output := None;
              Args.no_plot_surface := false |} 0%nat).
  cbn. lia.
Defined.

(** ** A threshold of zero or less *)

Lemma counter_after_nonneg log : forall c, 0 <= c -> 0 <= counter_after c log.
Proof.
  unfold counter_after. induction log as [|it log IH]; intros c Hc;
    [exact Hc|].
  cbn [fold_left]. apply IH. destruct (snd it); lia.
Qed.

Lemma one_miss_at_most log :
  (forall log1 it log2,
     log = (log1 ++ it :: log2)%list -> is_miss it -> log2 = []) ->
  all_hits log \/
  exists l num, log = (l ++ [(num, None)])%list /\ all_hits l.
Proof.
  unfold all_hits, is_miss. induction log as [|it log IH]; intros Hstop.
  - left. constructor.
  - destruct it as [num [p|]].
    + destruct IH as [IH|(l & n & -> & IH)].
      * intros log1 it log2 -> Hm.
        apply (Hstop ((num, Some p) :: log1) it log2 eq_refl Hm).
      * left. constructor; [discriminate|exact IH].
      * right. exists ((num, Some p) :: l), n.
        split; [reflexivity|]. constructor; [discriminate|exact IH].
    + right. exists [], num.
      rewrite (Hstop [] (num, None) log eq_refl eq_refl).
      split; [reflexivity|constructor].
Qed.

Lemma all_hits_numbers l :
  all_hits l ->
  Forall (fun it => forall p, snd it = Some p -> number (api p) = fst it) l ->
  map (fun p => number (api p)) (hits l) = map fst l.
Proof.
  unfold all_hits. induction 1 as [|it l Hit Hl IH]; intros Hh;
    [reflexivity|].
  inversion Hh as [|? ? Hn Hh']; subst.
  unfold hits. cbn [flat_map]. fold (hits l).
  destruct (snd it) as [p|] eqn:E; [|congruence].
  cbn [app map]. rewrite (Hn p eq_refl), (IH Hh'). reflexivity.
Qed.

(** X14.  With a [--consecutive-misses] of zero or less the scan of a street
    ends at its first miss: the properties it adds carry the numbers
    1, 2, ..., m without a gap, and the numbers probed are these and at most
    the next one. *)
Theorem first_miss_ends_the_scan {RT : Runtime} (args : Args.t)
    (province municipality : string) (del_code mun_code : option string)
    (street_type street_name : string) (props : list property) (w : World) :
  Args.consecutive_misses args <= 0 ->
  let r := scan_street args province municipality del_code mun_code
             street_type street_name props w in
  let probe := fun num => dnploc_url province municipality num
                            street_name street_type in
  exists (m : nat) (new : list property),
    properties (value r) = (props ++ new)%list /\
    map (fun p => number (api p)) new = range 1 (1 + Z.of_nat m) /\
    (filter is_probe (calls (trace r)) = map probe (range 1 (1 + Z.of_nat m))
     \/ filter is_probe (calls (trace r))
        = map probe (range 1 (2 + Z.of_nat m))).
Proof.
  intros HT. cbv zeta.
  destruct (scan_street_log args province municipality del_code mun_code
              street_type street_name props w) as (log & Hrun & Hnums & _).
  pose proof (run_hits _ _ _ _ _ _ _ _ _ _ _ _ _ _ Hrun) as Hh.
  assert (Hh' : Forall (fun it => forall p, snd it = Some p ->
                          number (api p) = fst it) log).
  { eapply Forall_impl; [|exact Hh]. cbn. intros it H p Hp. now apply H. }
  destruct (run_properties _ _ _ _ _ _ _ _ _ _ _ _ _ _ Hrun) as [Hp _].
  cbn [properties] in Hp.
  rewrite (run_probes _ _ _ _ _ _ _ _ _ _ _ _ _ _ Hrun).
  assert (Hstop : forall log1 it log2,
    log = (log1 ++ it :: log2)%list -> is_miss it -> log2 = []).
  { intros log1 it log2 Hlog Hm.
    apply (run_stop _ _ _ _ _ _ _ _ _ _ _ _ _ _ Hrun log1 it log2 Hlog Hm).
    rewrite counter_after_snoc. unfold is_miss in Hm. rewrite Hm.
    cbn [consecutive_misses].
    pose proof (counter_after_nonneg log1 0 ltac:(lia)). lia. }
  destruct (one_miss_at_most log Hstop) as [Hall|(l & num & Hlog & Hall)].
  - exists (List.length log), (hits log). split; [exact Hp|].
    split; [now rewrite all_hits_numbers|].
    left. now rewrite Hnums.
  - exists (List.length l), (hits l).
    assert (Hl : map fst l = range 1 (1 + Z.of_nat (List.length l))).
    { assert (E : map fst l = firstn (List.length l) (map fst log)).
      { rewrite Hlog, map_app, <- (length_map fst l).
        now rewrite firstn_app, Nat.sub_diag, firstn_all, app_nil_r. }
      rewrite E, Hnums. apply firstn_range.
      rewrite range_length, Hlog, length_app. cbn [List.length]. lia. }
    split; [|split].
    + rewrite Hp, Hlog. unfold hits. rewrite flat_map_app. cbn.
      now rewrite app_nil_r.
    + rewrite all_hits_numbers; [exact Hl|exact Hall|].
      rewrite Hlog in Hh'. apply Forall_app in Hh'. tauto.
    + right. rewrite Hnums, Hlog, length_app. cbn [List.length]. do 2 f_equal.
      lia.
Qed.

(** On the scripted registry number 1 is a miss: with a threshold of zero
    nothing is found on CL REAL and number 1 alone is probed. *)
Lemma first_miss_ends_the_scan_witness :
  exists m new,
    properties
      (value (scan_street (RT := demo)
                {| Args.province := "TOLEDO"; Args.municipality := "ALMOROX";
                   Args.street := "REAL"; Args.max_number := 8;
                   Args.consecutive_misses := 0; Args.output := None;
                   Args.no_plot_surface := false |}
                "TOLEDO" "ALMOROX" (Some "45") (Some "13") "CL" "REAL" []
                0%nat))
    = new /\
    map (fun p => number (api p)) new = range 1 (1 + Z.of_nat m).
Proof.
  destruct (first_miss_ends_the_scan (RT := demo)
              {| Args.province := "TOLEDO"; Args.municipality := "ALMOROX";
                 Args.street := "REAL"; Args.max_number := 8;
                 Args.consecutive_misses := 0; Args.output := None;
                 Args.no_plot_surface := false |}
              "TOLEDO" "ALMOROX" (Some "45") (Some "13") "CL" "REAL" []
              0%nat) as (m & new & Hp & Hn & _).
  - cbn. lia.
  - exists m, new. split; [exact Hp|exact Hn].
Defined.

(** ** What the cells of the CSV hold *)

Section CellFacts.
Context {RT : Runtime}.
Variable args : Args.t.
Variables province municipality : string.
Variables del_code mun_code : option string.

Lemma run_hits_origin street_type street_name nums st w log st' tr w' :
  scan_run args province municipality del_code mun_code street_type
    street_name nums st w log st' tr w' ->
  Forall (collected_by args province municipality del_code mun_code)
    (hits log).
Proof.
  induction 1; cbn [hits flat_map snd app]; try constructor; auto.
  exists num, street_name, street_type, w, w1. unfold stored. cbn [api plot_surface_m2].
  rewrite H, H0. split; reflexivity.
Qed.

Lemma scan_streets_origin streets : forall props w,
  Forall (collected_by args province municipality del_code mun_code) props ->
  Forall (collected_by args province municipality del_code mun_code)
    (value (scan_streets args province municipality del_code mun_code
              streets props w)).
Proof.
  induction streets as [|[street_type street_name] rest IH]; intros props w Hp;
    [exact Hp|].
  cbn [scan_streets]. rewrite value_bind. apply IH.
  destruct (scan_street_log args province municipality del_code mun_code
              street_type street_name props w) as (log & Hrun & _).
  rewrite (proj1 (run_properties _ _ _ _ _ _ _ _ _ _ _ _ _ _ Hrun)).
  cbn [properties]. apply Forall_app. split; [exact Hp|].
  eapply run_hits_origin; eauto.
Qed.

Lemma get_plot_surface_value cadastral_ref w :
  value (get_plot_surface cadastral_ref del_code mun_code w) = None \/
  exists n, value (get_plot_surface cadastral_ref del_code mun_code w)
            = Some n /\ 0 < n.
Proof.
  destruct (truthy del_code) eqn:Hd.
  2:{ rewrite get_plot_surface_no_codes by auto. now left. }
  destruct (truthy mun_code) eqn:Hm.
  2:{ rewrite get_plot_surface_no_codes by auto. now left. }
  destruct del_code as [d|]; [|discriminate].
  destruct mun_code as [m|]; [|discriminate].
  assert (Hd' : d <> "") by (intros ->; discriminate).
  assert (Hm' : m <> "") by (intros ->; discriminate).
  destruct (get_plot_surface_run cadastral_ref d m w Hd' Hm') as (_ & _ & ->).
  destruct (value (fetch_url _ default_retries w)) as [html|]; [|now left].
  destruct (re_search re_superficie html) as [g|]; [|now left].
  destruct (int (remove_char "." g)) as [n|]; [|now left].
  destruct (n >? 0) eqn:Hn; [|now left].
  right. exists n. split; [reflexivity|lia].
Qed.

Lemma plot_cell_value prop w :
  plot_cell_ok (value (plot_cell args del_code mun_code prop w)) /\
  (plots_enabled args del_code mun_code = false ->
   value (plot_cell args del_code mun_code prop w) = CStr "").
Proof.
  unfold plot_cell, plots_enabled, plot_cell_ok.
  destruct (Args.no_plot_surface args); cbn [negb andb].
  - split; [now left|reflexivity].
  - rewrite value_bind. split.
    + destruct (get_plot_surface_value (referencia_catastral prop) w)
        as [-> | (n & -> & Hn)]; [now left|].
      unfold ret, value. cbn [fst].
      destruct (n =? 0) eqn:E; [now left|]. right. eauto.
    + intros H. rewrite get_plot_surface_no_codes; [reflexivity|].
      destruct (truthy del_code); [right; exact H|now left].
Qed.
End CellFacts.

Lemma collect_origin {RT : Runtime} (args : Args.t) (w : World) :
  Forall (collected_by args (upper (Args.province args))
            (upper (Args.municipality args))
            (fst (value (lookup_codes args w)))
            (snd (value (lookup_codes args w))))
    (value (collect args w)).
Proof.
  rewrite collect_run. cbn [value fst]. apply scan_streets_origin. constructor.
Qed.

(** X15.  Of every property collected in a run, the plot cell is the empty
    text or a strictly positive integer, the built surface is not negative,
    the parcel reference is not empty, the full reference starts with the
    parcel reference, and the year is empty or made of digits. *)
Theorem csv_cells_well_formed {RT : Runtime} (args : Args.t) (w : World) :
  Forall (fun p =>
            plot_cell_ok (plot_surface_m2 p) /\
            0 <= built_surface_m2 (api p) /\
            parcel_ref (api p) <> "" /\
            String.prefix (parcel_ref (api p)) (referencia_catastral (api p))
            = true /\
            (year (api p) = "" \/ run_of is_digit (year (api p))))
    (value (collect args w)).
Proof.
  eapply Forall_impl; [|apply collect_origin].
  intros p (num & street_name & street_type & w0 & w1 & Hv & Hplot).
  split; [rewrite Hplot; apply plot_cell_value|].
  destruct (get_property_hit_inv _ _ _ _ _ _ _ Hv)
    as (body & pc1 & pc2 & Hf & Hok & Herr & H1 & H2).
  rewrite (get_property_hit _ _ _ _ _ _ _ _ _ Hf Hok Herr H1 H2) in Hv.
  inversion Hv as [Hapi]. cbn.
  destruct (field_sound _ _ _ _ H1) as [_ [Hne1 _]].
  unfold digits_field.
  split; [|split; [|split]].
  - destruct (re_search (element "sfc" is_digit) body) as [g|] eqn:E; [|lia].
    apply (int_of_digits_group "sfc" body g E).
  - destruct pc1; [congruence|discriminate].
  - apply prefix_append.
  - destruct (re_search (element "ant" is_digit) body) as [g|] eqn:E;
      [|now left].
    right. cbn. exact (proj2 (field_sound _ _ _ _ E)).
Qed.

Section NoPlots.
Context {RT : Runtime}.

Lemma collect_viewers args w :
  plots_enabled args (fst (value (lookup_codes args w)))
    (snd (value (lookup_codes args w))) = false ->
  filter is_sede (calls (trace (collect args w))) = [].
Proof.
  intros Hpl. rewrite collect_run. cbn [trace fst snd].
  rewrite !calls_app, !filter_app.
  destruct (lookup_codes_run args w) as (H1 & _).
  rewrite H1.
  match goal with
  | |- context [discover_streets ?p ?m ?s ?w0] =>
      destruct (discover_streets_requests p m s w0) as (H2 & _)
  end.
  rewrite H2.
  match goal with
  | |- context [scan_streets ?a ?p ?m ?d ?c ?s [] ?w0] =>
      destruct (scan_streets_summary a p m d c s [] w0)
        as (logs & _ & _ & _ & H3 & _)
  end.
  rewrite H3, Hpl. destruct (Args.no_plot_surface args); reflexivity.
Qed.
End NoPlots.

(** X16.  With [--no-plot-surface], and also when the lookup did not give
    both codes, the plot cell of every property collected is empty and no
    request of the run goes to the viewer. *)
Theorem without_plot_surfaces {RT : Runtime} (args : Args.t) (w : World) :
  plots_enabled args (fst (value (lookup_codes args w)))
    (snd (value (lookup_codes args w))) = false ->
  Forall (fun p => plot_surface_m2 p = CStr "") (value (collect args w)) /\
  Forall (fun u => is_sede u = false /\ host_of u = ovc_host)
    (urls (trace (main args w))).
Proof.
  intros Hpl. split.
  - eapply Forall_impl; [|apply collect_origin].
    intros p (num & street_name & street_type & w0 & w1 & _ & ->).
    now apply plot_cell_value.
  - destruct (main_urls args w) as [-> _].
    apply Forall_forall. intros u Hu.
    apply (proj2 (collect_requests args w)) in Hu.
    assert (Hs : is_sede u = false).
    { destruct (is_sede u) eqn:E; [|reflexivity].
      assert (Hin : In u (filter is_sede (calls (trace (collect args w)))))
        by (apply filter_In; auto).
      rewrite (collect_viewers args w Hpl) in Hin. destruct Hin. }
    split; [exact Hs|].
    apply collect_calls_form in Hu.
    destruct Hu as [->|[->|[(num & n & t & ->)|(ref & d & m & -> & _)]]];
      try reflexivity.
    discriminate Hs.
Qed.

(** On the scripted registry, with [--no-plot-surface]. *)
Lemma without_plot_surfaces_witness :
  Forall (fun p => plot_surface_m2 p = CStr "")
    (value (collect (RT := demo) (demo_args true) 0%nat)).
Proof.
  apply (without_plot_surfaces (RT := demo) (demo_args true) 0%nat).
  reflexivity.
Defined.
